(** * threat_class_report.py: retrieval, aggregation and rendering of
      threat classes and their properties

    A shallow embedding of [src/threat_class_report.py] and the properties
    of it that the specification states.

    The script talks to three collaborators that are not part of it: the
    bloxone client object [b1td] (two remote reads), the [json] decoder and
    the file system ([os.path.isfile], [shutil.move], [open], [close]).
    They are gathered in the record [Env]; the state they act on is an
    abstract world [W].  Every function of the script is a computation in
    a state-and-exception monad over that world which also yields, in
    order, the observable events of the run (console lines, log records,
    file-system calls, remote calls).  An exception keeps the world and the
    events reached so far, as in Python. *)

From Stdlib Require Import String Ascii List ZArith Lia Bool DecimalString.
Import ListNotations.
Set Warnings "-register-all".
Open Scope string_scope.

(** ** Python values *)

(** What [json.loads] can return.  JSON numbers with a fraction or an
    exponent (Python floats) are outside the embedding. *)
Inductive pyval : Type :=
| PNone
| PBool (b : bool)
| PInt (z : Z)
| PStr (s : string)
| PList (l : list pyval)
| PDict (d : list (string * pyval)).

(** The exceptions the script can meet.  [OtherError] stands for any
    exception raised by a collaborator that the script gives no special
    treatment (a transport fault of the client, for instance). *)
Inductive exn : Type :=
| NameError (name : string)
| KeyError (key : pyval)
| TypeError
| AttributeError
| JSONDecodeError
| IOError
| OtherError (tag : string).

Inductive outcome (A : Type) : Type :=
| Ok (a : A)
| Raise (e : exn).
Arguments Ok {A} a.
Arguments Raise {A} e.

(** [except IOError] catches [IOError] and nothing else of [exn]. *)
Definition is_IOError (e : exn) : bool :=
  match e with IOError => true | _ => false end.

(** *** Hashing and equality of dictionary keys

    [None], booleans, integers and strings are hashable; lists and
    dictionaries are not.  [True == 1] and [False == 0] in Python, so a
    boolean and an integer can be the same key. *)
Inductive hkey : Type :=
| KNone
| KNum (z : Z)
| KStr (s : string).

Definition py_hash (v : pyval) : option hkey :=
  match v with
  | PNone => Some KNone
  | PBool b => Some (KNum (if b then 1 else 0)%Z)
  | PInt z => Some (KNum z)
  | PStr s => Some (KStr s)
  | PList _ | PDict _ => None
  end.

Definition hkey_eqb (a b : hkey) : bool :=
  match a, b with
  | KNone, KNone => true
  | KNum x, KNum y => Z.eqb x y
  | KStr s, KStr t => String.eqb s t
  | _, _ => false
  end.

(** [a == b] on keys, as the dictionary compares them. *)
Definition key_eqb (a b : pyval) : bool :=
  match py_hash a, py_hash b with
  | Some x, Some y => hkey_eqb x y
  | _, _ => false
  end.

(** A Python [dict] from class identifiers to property lists, in insertion
    order.  [collections.defaultdict()] built without a default factory
    behaves as a plain [dict]: a missing key raises [KeyError]. *)
Definition pydict := list (pyval * list pyval).

Fixpoint dict_find (k : hkey) (d : pydict) : option (list pyval) :=
  match d with
  | [] => None
  | (k', v) :: d' =>
      match py_hash k' with
      | Some h => if hkey_eqb h k then Some v else dict_find k d'
      | None => dict_find k d'
      end
  end.

(** [d[key] = v] on a found key keeps the stored key object and replaces
    its value; a new key goes to the end. *)
Fixpoint dict_store (key : pyval) (k : hkey) (v : list pyval) (d : pydict)
  : pydict :=
  match d with
  | [] => [(key, v)]
  | (k', v') :: d' =>
      match py_hash k' with
      | Some h =>
          if hkey_eqb h k then (k', v) :: d'
          else (k', v') :: dict_store key k v d'
      | None => (k', v') :: dict_store key k v d'
      end
  end.

(** [d[key]] *)
Definition dict_getitem (key : pyval) (d : pydict) : outcome (list pyval) :=
  match py_hash key with
  | None => Raise TypeError
  | Some k =>
      match dict_find k d with
      | Some v => Ok v
      | None => Raise (KeyError key)
      end
  end.

(** [d[key] = v] *)
Definition dict_setitem (key : pyval) (v : list pyval) (d : pydict)
  : outcome pydict :=
  match py_hash key with
  | None => Raise TypeError
  | Some k => Ok (dict_store key k v d)
  end.

(** [key in d] *)
Definition dict_mem (key : pyval) (d : pydict) : bool :=
  match py_hash key with
  | None => false
  | Some k => match dict_find k d with Some _ => true | None => false end
  end.

Definition dict_keys (d : pydict) : list pyval := map fst d.

(** *** Operations on decoded JSON *)

Fixpoint assoc (k : string) (d : list (string * pyval)) : option pyval :=
  match d with
  | [] => None
  | (k', v) :: d' => if String.eqb k' k then Some v else assoc k d'
  end.

(** [k in v.keys()]: only a dictionary has [keys]. *)
Definition py_in_keys (k : string) (v : pyval) : outcome bool :=
  match v with
  | PDict d => Ok (match assoc k d with Some _ => true | None => false end)
  | _ => Raise AttributeError
  end.

(** [v[k]] for a string [k]. *)
Definition py_getitem (v : pyval) (k : string) : outcome pyval :=
  match v with
  | PDict d =>
      match assoc k d with
      | Some x => Ok x
      | None => Raise (KeyError (PStr k))
      end
  | _ => Raise TypeError
  end.

Fixpoint chars (s : string) : list pyval :=
  match s with
  | EmptyString => []
  | String c s' => PStr (String c EmptyString) :: chars s'
  end.

(** What [for x in v] goes through: the elements of a list, the keys of a
    dictionary, the characters of a string; other values are not
    iterable. *)
Definition py_iter (v : pyval) : outcome (list pyval) :=
  match v with
  | PList l => Ok l
  | PDict d => Ok (map (fun kv => PStr (fst kv)) d)
  | PStr s => Ok (chars s)
  | _ => Raise TypeError
  end.

(** ** The run: world, events, monad *)

Inductive level : Type := DEBUG | INFO | WARNING | ERROR.

(** The text of a log record: a formatted string, or [str(err)] of a
    caught exception. *)
Inductive logmsg : Type :=
| Msg (s : string)
| MsgExn (e : exn).

Definition handle := nat.

Inductive event : Type :=
| EPrint (line : string)                    (* print(line); print() is the empty line *)
| EBasicConfig (lvl : level)                (* logging.basicConfig(level=lvl, ...) *)
| ELog (lvl : level) (msg : logmsg)         (* log.debug / info / warning / error *)
| EB1Init (configfile : string)             (* bloxone.b1td(configfile) *)
| ECallClasses                              (* b1td.threat_classes() *)
| ECallProperties (tclass : pyval)          (* b1td.threat_properties(threatclass=tclass) *)
| EMove (src dst : string) (ok : bool)      (* shutil.move(src, dst), and whether it returned *)
| EOpen (path : string) (h : option handle) (* open(path, mode='w'), and the handle it gave *)
| EWrite (h : handle) (data : string)       (* h.write(data) *)
| EClose (h : handle)                       (* h.close() *)
| EPbarOpen (total : nat)                   (* tqdm.tqdm(total=total).__enter__ *)
| EPbarUpdate (n : nat)                     (* pbar.update(n) *)
| EPbarClose.                               (* tqdm's __exit__ *)

Record response : Type := mkResponse {
  status_code : Z;
  text : string
}.

(** The collaborators of the script over a world [W].

    [log_bound] says whether the module's global namespace binds the name
    [log] when a function is called.  [open_file], [get_classes] and
    [get_properties] use [log] without binding it, so Python looks it up
    among the globals; the source assigns [log] only as a local variable of
    [main] (line 261, no [global] statement), so in the script as it is run
    the global is unbound and evaluating [log] raises [NameError]. *)
Record Env (W : Type) : Type := mkEnv {
  log_bound : bool;
  return_codes_ok : list Z;
  b1td_init : string -> W -> outcome unit * W;
  b1td_threat_classes : W -> outcome response * W;
  b1td_threat_properties : pyval -> W -> outcome response * W;
  json_loads : string -> outcome pyval;
  os_path_isfile : string -> W -> bool;
  shutil_move : string -> string -> W -> outcome unit * W;
  open_w : string -> W -> outcome handle * W;
  file_close : handle -> W -> W;
  repr_container : pyval -> string
}.
Arguments log_bound {W} _.
Arguments return_codes_ok {W} _.
Arguments b1td_init {W} _ _ _.
Arguments b1td_threat_classes {W} _ _.
Arguments b1td_threat_properties {W} _ _ _.
Arguments json_loads {W} _ _.
Arguments os_path_isfile {W} _ _ _.
Arguments shutil_move {W} _ _ _ _.
Arguments open_w {W} _ _ _.
Arguments file_close {W} _ _ _.
Arguments repr_container {W} _ _.

(** What running a computation from a world gives: its outcome, the world
    it leaves and the events it produced, oldest first. *)
Record run (W A : Type) : Type := mkRun {
  res : outcome A;
  world_after : W;
  events : list event
}.
Arguments mkRun {W A} _ _ _.
Arguments res {W A} _.
Arguments world_after {W A} _.
Arguments events {W A} _.

Definition M (W A : Type) : Type := W -> run W A.

Definition ret {W A} (a : A) : M W A := fun w => mkRun (Ok a) w [].

Definition bind {W A B} (m : M W A) (k : A -> M W B) : M W B :=
  fun w =>
    let r := m w in
    match res r with
    | Ok a =>
        let r' := k a (world_after r) in
        mkRun (res r') (world_after r') (events r ++ events r')%list
    | Raise e => mkRun (Raise e) (world_after r) (events r)
    end.

Definition raise {W A} (e : exn) : M W A := fun w => mkRun (Raise e) w [].

(** [try: m  except <the exceptions e with sel e>: h e] *)
Definition try_except {W A} (m : M W A) (sel : exn -> bool) (h : exn -> M W A)
  : M W A :=
  fun w =>
    let r := m w in
    match res r with
    | Ok a => r
    | Raise e =>
        if sel e then
          let r' := h e (world_after r) in
          mkRun (res r') (world_after r') (events r ++ events r')%list
        else r
    end.

(** [with ... : m], whose exit step [fin] runs on every way out of [m]. *)
Definition try_finally {W A} (m : M W A) (fin : M W unit) : M W A :=
  fun w =>
    let r := m w in
    let r' := fin (world_after r) in
    mkRun (match res r' with Ok _ => res r | Raise e => Raise e end)
          (world_after r') (events r ++ events r')%list.

Definition emit {W} (e : event) : M W unit := fun w => mkRun (Ok tt) w [e].

(** A pure step that may raise. *)
Definition lift {W A} (o : outcome A) : M W A := fun w => mkRun o w [].

(** A call of a collaborator that acts on the world. *)
Definition call {W A} (op : W -> outcome A * W) : M W A :=
  fun w => mkRun (fst (op w)) (snd (op w)) [].

Declare Scope run_scope.
Delimit Scope run_scope with run.
Notation "x <- m ;; k" := (bind m (fun x => k))
  (at level 61, m at next level, right associativity) : run_scope.
Notation "m ;;; k" := (bind m (fun _ => k))
  (at level 61, right associativity) : run_scope.
Open Scope run_scope.

(** [for x in l: body], the accumulator standing for the object the loop
    body mutates. *)
Fixpoint for_each {W A B} (l : list A) (body : B -> A -> M W B) (acc : B)
  : M W B :=
  match l with
  | [] => ret acc
  | x :: l' => acc' <- body acc x ;; for_each l' body acc'
  end.

(** ['{}'.format(n)] for an integer. *)
Definition str_of_Z (z : Z) : string := NilZero.string_of_int (Z.to_int z).
Definition str_of_nat (n : nat) : string := NilZero.string_of_uint (Nat.to_uint n).

(** ** The script *)

(** What [parseargs()] returns. *)
Record Args : Type := mkArgs {
  config : string;          (* -c, default 'config.ini' *)
  properties : bool;        (* -p *)
  output : option string;   (* -o, None when not given *)
  debug : bool              (* -d *)
}.

(** Truth value of a string: the empty string is false. *)
Definition str_truthy (s : string) : bool :=
  match s with EmptyString => false | _ => true end.

(** Truth value of the mapping: an empty one is false (as is the default
    argument [[]] of [output_report]). *)
Definition dict_truthy (d : pydict) : bool :=
  match d with [] => false | _ :: _ => true end.

Section Script.
Context {W : Type} (E : Env W).

Definition print (line : string) : M W unit := emit (EPrint line).

(** A call [log.<lvl>(msg)] in [main], through its local variable. *)
Definition log_local (lvl : level) (msg : logmsg) : M W unit :=
  emit (ELog lvl msg).

(** A call [log.<lvl>(msg)] outside [main], through the global name
    [log]; the name is looked up before the message is built. *)
Definition log_global (lvl : level) (msg : logmsg) : M W unit :=
  if log_bound E then emit (ELog lvl msg) else raise (NameError "log").

(** ['{}'.format(v)] *)
Definition py_str (v : pyval) : string :=
  match v with
  | PNone => "None"
  | PBool true => "True"
  | PBool false => "False"
  | PInt z => str_of_Z z
  | PStr s => s
  | PList _ | PDict _ => repr_container E v
  end.

Definition do_move (src dst : string) : M W unit :=
  fun w =>
    let r := shutil_move E src dst w in
    mkRun (fst r) (snd r)
          [EMove src dst (match fst r with Ok _ => true | Raise _ => false end)].

Definition do_open (path : string) : M W handle :=
  fun w =>
    let r := open_w E path w in
    mkRun (fst r) (snd r)
          [EOpen path (match fst r with Ok h => Some h | Raise _ => None end)].

Definition do_close (h : handle) : M W unit :=
  fun w => mkRun (Ok tt) (file_close E h w) [EClose h].

(** [setup_logging], lines 64-87. *)
Definition setup_logging (debug : bool) : M W unit :=
  if debug then emit (EBasicConfig DEBUG) else emit (EBasicConfig INFO).

(** [open_file], lines 89-116.  [None] is the [False] it returns when no
    file was opened. *)
Definition open_file (filename : string) : M W (option handle) :=
  fun w =>
    if os_path_isfile E filename w then
      let backup := filename ++ ".bak" in
      try_except
        (do_move filename backup ;;;
         log_global INFO (Msg ("Outfile exists moved to " ++ backup)) ;;;
         try_except
           (handler <- do_open filename ;;
            log_global INFO
              (Msg ("Successfully opened output file " ++ filename ++ ".")) ;;;
            ret (Some handler))
           is_IOError
           (fun err => log_global ERROR (MsgExn err) ;;; ret None))
        (fun _ => true)
        (fun _ =>
           log_global WARNING
             (Msg ("Could not back up existing file " ++ filename
                   ++ ", exiting.")) ;;;
           ret None)
        w
    else
      try_except
        (handler <- do_open filename ;;
         log_global INFO
           (Msg ("Opened file " ++ filename ++ " for invalid lines.")) ;;;
         ret (Some handler))
        is_IOError
        (fun err => log_global ERROR (MsgExn err) ;;; ret None)
        w.

(** [get_classes], lines 151-177. *)
Definition get_classes : M W (list pyval) :=
  let threat_classes : list pyval := [] in
  response <- (emit ECallClasses ;;; call (b1td_threat_classes E)) ;;
  if existsb (Z.eqb (status_code response)) (return_codes_ok E) then
    parsed_json <- lift (json_loads E (text response)) ;;
    has <- lift (py_in_keys "threat_class" parsed_json) ;;
    if has then
      arr <- lift (py_getitem parsed_json "threat_class") ;;
      items <- lift (py_iter arr) ;;
      for_each items
        (fun acc tclass =>
           id <- lift (py_getitem tclass "id") ;;
           ret (acc ++ [id])%list)
        threat_classes
    else
      log_global DEBUG
        (Msg ("Data format error. Raw data: " ++ text response)) ;;;
      ret threat_classes
  else
    log_global DEBUG
      (Msg ("API error with rcode: " ++ str_of_Z (status_code response))) ;;;
    ret threat_classes.

(** [get_properties], lines 180-206. *)
Definition get_properties (tclass : pyval) : M W (list pyval) :=
  let threat_properties : list pyval := [] in
  response <- (emit (ECallProperties tclass) ;;;
               call (b1td_threat_properties E tclass)) ;;
  if existsb (Z.eqb (status_code response)) (return_codes_ok E) then
    parsed_json <- lift (json_loads E (text response)) ;;
    has <- lift (py_in_keys "property" parsed_json) ;;
    if has then
      arr <- lift (py_getitem parsed_json "property") ;;
      items <- lift (py_iter arr) ;;
      for_each items
        (fun acc property =>
           id <- lift (py_getitem property "id") ;;
           ret (acc ++ [id])%list)
        threat_properties
    else
      log_global DEBUG
        (Msg ("Data format error. Raw data: " ++ text response)) ;;;
      ret threat_properties
  else
    log_global DEBUG
      (Msg ("API error with rcode: " ++ str_of_Z (status_code response))) ;;;
    ret threat_properties.

(** [output_report], lines 209-235. *)
Definition output_report (threat_classes : list pyval)
    (prop_by_class : pydict) : M W unit :=
  if dict_truthy prop_by_class then
    for_each threat_classes
      (fun _ tclass =>
         print EmptyString ;;;
         print ("Threat Class: " ++ py_str tclass) ;;;
         print " Associated Threat Properties:" ;;;
         props <- lift (dict_getitem tclass prop_by_class) ;;
         for_each props
           (fun _ prop => print ("     " ++ py_str prop)) tt)
      tt ;;;
    print EmptyString
  else
    print "Threat Classes:" ;;;
    for_each threat_classes
      (fun _ tclass => print ("     " ++ py_str tclass)) tt ;;;
    print EmptyString.

(** One turn of the loop of lines 278-280: the right-hand side is
    evaluated before the key is hashed and stored. *)
Definition collect_step (prop_by_class : pydict) (tc : pyval)
  : M W pydict :=
  props <- get_properties tc ;;
  d <- lift (dict_setitem tc props prop_by_class) ;;
  emit (EPbarUpdate 1) ;;;
  ret d.

(** The [with tqdm.tqdm(...)] block of lines 277-280. *)
Definition collect_properties (threat_classes : list pyval)
    (prop_by_class : pydict) : M W pydict :=
  emit (EPbarOpen (length threat_classes)) ;;;
  try_finally (for_each threat_classes collect_step prop_by_class)
              (emit EPbarClose).

(** [main], lines 237-293, from the arguments [parseargs()] returned. *)
Definition main (args : Args) : M W Z :=
  let exitcode := 0%Z in
  let prop_by_class : pydict := [] in
  let add_properties := properties args in
  let outputfile := output args in
  let configfile :=
    if str_truthy (config args) then config args else "config.ini" in
  emit (EB1Init configfile) ;;;
  call (b1td_init E configfile) ;;;
  setup_logging (debug args) ;;;
  outfile <-
    match outputfile with
    | Some filename =>
        if str_truthy filename then
          outfile <- open_file filename ;;
          match outfile with
          | Some _ => ret outfile
          | None =>
              log_local WARNING
                (Msg "Failed to open output file for CSV.") ;;;
              ret outfile
          end
        else ret None
    | None => ret None
    end ;;
  log_local INFO (Msg "Retreiving Threat Classes") ;;;
  threat_classes <- get_classes ;;
  log_local INFO
    (Msg (str_of_nat (length threat_classes)
          ++ " Threat Classes Returned")) ;;;
  prop_by_class <-
    (if add_properties then
       log_local INFO
         (Msg "Retreiving Threat Properies for each Threat Class") ;;;
       collect_properties threat_classes prop_by_class
     else ret prop_by_class) ;;
  log_local INFO (Msg "Generating Report") ;;;
  output_report threat_classes prop_by_class ;;;
  match outfile with
  | Some h => do_close h
  | None => ret tt
  end ;;;
  log_local DEBUG (Msg "Processing complete.") ;;;
  ret exitcode.

End Script.

(** ** A small service, client and file system to run the script on

    The world is the list of the paths of the regular files that exist.
    The taxonomy service knows the classes malware and phishing; the
    property request is answered for malware and refused (status 404) for
    phishing; a class named botnet gets a body that is not JSON, and a
    class named spam a body whose property field is an object instead of an
    array.  The switches choose whether the global name [log] is bound,
    whether [shutil.move] succeeds and whether the class request gets
    through. *)
Module Demo.

Definition world := list string.

Definition q : string := String "034"%char EmptyString.

Definition classes_body : string :=
  "{" ++ q ++ "threat_class" ++ q ++ ": [{" ++ q ++ "id" ++ q ++ ": "
      ++ q ++ "malware" ++ q ++ "}, {" ++ q ++ "id" ++ q ++ ": "
      ++ q ++ "phishing" ++ q ++ "}]}".

Definition properties_body : string :=
  "{" ++ q ++ "property" ++ q ++ ": [{" ++ q ++ "id" ++ q ++ ": "
      ++ q ++ "trojan" ++ q ++ "}, {" ++ q ++ "id" ++ q ++ ": "
      ++ q ++ "worm" ++ q ++ "}]}".

Definition object_body : string :=
  "{" ++ q ++ "property" ++ q ++ ": {}}".

Definition no_field_body : string :=
  "{" ++ q ++ "errors" ++ q ++ ": []}".

Definition broken_body : string := "<html>Bad Gateway</html>".

Definition malware := PStr "malware".
Definition phishing := PStr "phishing".
Definition botnet := PStr "botnet".
Definition spam := PStr "spam".
Definition adware := PStr "adware".

Definition loads (s : string) : outcome pyval :=
  if String.eqb s classes_body then
    Ok (PDict [("threat_class",
                PList [PDict [("id", malware)]; PDict [("id", phishing)]])])
  else if String.eqb s properties_body then
    Ok (PDict [("property",
                PList [PDict [("id", PStr "trojan")];
                       PDict [("id", PStr "worm")]])])
  else if String.eqb s object_body then
    Ok (PDict [("property", PDict [])])
  else if String.eqb s no_field_body then
    Ok (PDict [("errors", PList [])])
  else Raise JSONDecodeError.

Definition classes_call (up : bool) (w : world) : outcome response * world :=
  if up then (Ok (mkResponse 200 classes_body), w)
  else (Raise (OtherError "ConnectionError"), w).

Definition properties_call (tclass : pyval) (w : world)
  : outcome response * world :=
  if key_eqb tclass malware then (Ok (mkResponse 200 properties_body), w)
  else if key_eqb tclass botnet then (Ok (mkResponse 200 broken_body), w)
  else if key_eqb tclass spam then (Ok (mkResponse 200 object_body), w)
  else if key_eqb tclass adware then (Ok (mkResponse 200 no_field_body), w)
  else (Ok (mkResponse 404 EmptyString), w).

Definition isfile (p : string) (w : world) : bool :=
  existsb (String.eqb p) w.

Definition move (can_move : bool) (src dst : string) (w : world)
  : outcome unit * world :=
  if can_move then
    (Ok tt, dst :: filter (fun p => negb (String.eqb p src)) w)
  else (Raise IOError, w).

Definition open_ (p : string) (w : world) : outcome handle * world :=
  (Ok 3, if isfile p w then w else p :: w).

Definition env_gen (bound can_move : bool)
    (classes : world -> outcome response * world) : Env world :=
  {| log_bound := bound;
     return_codes_ok := [200; 201; 204]%Z;
     b1td_init := fun _ w => (Ok tt, w);
     b1td_threat_classes := classes;
     b1td_threat_properties := properties_call;
     json_loads := loads;
     os_path_isfile := isfile;
     shutil_move := move can_move;
     open_w := open_;
     file_close := fun _ w => w;
     repr_container := fun _ => "[...]" |}.

Definition env (bound can_move up : bool) : Env world :=
  env_gen bound can_move (classes_call up).

(** A service that answers the class request with the given response. *)
Definition answering (bound : bool) (r : response) : Env world :=
  env_gen bound true (fun w => (Ok r, w)).

(** The script as it is run: the global name [log] is unbound. *)
Definition script_env : Env world := env false true true.

(** The same with a logger bound to the global name. *)
Definition logged_env : Env world := env true true true.

Definition args_plain : Args := mkArgs "config.ini" false None false.
Definition args_props : Args := mkArgs "config.ini" true None false.
Definition args_out : Args := mkArgs "config.ini" false (Some "report.csv") false.

End Demo.

(** ** The renderings the specification describes *)

(** Flat mode: a single header, one indented line per class in the order
    of the class sequence, and a closing empty line. *)
Definition flat_report {W} (E : Env W) (classes : list pyval) : list string :=
  ("Threat Classes:" :: map (fun c => "     " ++ py_str E c) classes)
    ++ [EmptyString].

(** Grouped mode, one class: an empty line, the class header, the line
    announcing the properties, then each property of the class indented. *)
Definition grouped_block {W} (E : Env W) (m : pydict) (c : pyval)
  : list string :=
  EmptyString
    :: ("Threat Class: " ++ py_str E c)
    :: " Associated Threat Properties:"
    :: map (fun p => "     " ++ py_str E p)
           (match dict_getitem c m with Ok ps => ps | Raise _ => [] end).

Definition grouped_report {W} (E : Env W) (classes : list pyval) (m : pydict)
  : list string :=
  flat_map (grouped_block E m) classes ++ [EmptyString].

(** How often a handle is closed in a run. *)
Definition closes (h : handle) (evs : list event) : nat :=
  length (filter (fun e => match e with
                           | EClose h' => Nat.eqb h' h
                           | _ => false
                           end) evs).

(** What was written to a handle in a run. *)
Definition written (h : handle) (evs : list event) : list string :=
  flat_map (fun e => match e with
                     | EWrite h' s => if Nat.eqb h' h then [s] else []
                     | _ => []
                     end) evs.

(** The console lines of a run. *)
Definition console (evs : list event) : list string :=
  flat_map (fun e => match e with EPrint s => [s] | _ => [] end) evs.

(** ** Vocabulary of the statements *)

(** The lines grouped mode can print. *)
Definition grouped_line {W} (E : Env W) (l : string) : Prop :=
  l = EmptyString
  \/ (exists c, l = "Threat Class: " ++ py_str E c)
  \/ l = " Associated Threat Properties:"
  \/ (exists p, l = "     " ++ py_str E p).

Definition prints {W} (E : Env W) (P : string -> Prop) (e : event) : Prop :=
  match e with EPrint l => P l | _ => False end.

(** Kinds of events. *)
Definition no_close (e : event) : Prop :=
  match e with EClose _ => False | _ => True end.

Definition no_handle (e : event) : Prop :=
  match e with EOpen _ (Some _) => False | _ => True end.

Definition no_write (e : event) : Prop :=
  match e with EWrite _ _ => False | _ => True end.

(** Log records, remote calls, progress and configuration: nothing on the
    console and nothing on the file system. *)
Definition silent (e : event) : Prop :=
  match e with
  | EPrint _ | EMove _ _ _ | EOpen _ _ | EWrite _ _ | EClose _ => False
  | _ => True
  end.

(** The configuration file [main] settles on, lines 251-254. *)
Definition configfile_of (args : Args) : string :=
  if str_truthy (config args) then config args else "config.ini".

Section Vocabulary.
Context {W : Type} (E : Env W).

(** Every event of a computation satisfies [P], from any world. *)
Definition emits {A} (P : event -> Prop) (m : M W A) : Prop :=
  forall w, Forall P (events (m w)).

(** [response.status_code in b1td.return_codes_ok] *)
Definition status_ok (r : response) : bool :=
  existsb (Z.eqb (status_code r)) (return_codes_ok E).

(** Lines 264-269 of [main]: the output file. *)
Definition open_part (outputfile : option string) : M W (option handle) :=
  match outputfile with
  | Some filename =>
      if str_truthy filename then
        outfile <- open_file E filename ;;
        match outfile with
        | Some _ => ret outfile
        | None =>
            log_local WARNING (Msg "Failed to open output file for CSV.") ;;;
            ret outfile
        end
      else ret None
  | None => ret None
  end.

(** Lines 287-293 of [main]: the close and the return. *)
Definition closing (outfile : option handle) : M W Z :=
  match outfile with
  | Some h => do_close E h
  | None => ret tt
  end ;;;
  log_local DEBUG (Msg "Processing complete.") ;;;
  ret 0%Z.

(** Lines 271-293 of [main]: all that follows the output file. *)
Definition main_tail (add_properties : bool) (outfile : option handle)
  : M W Z :=
  log_local INFO (Msg "Retreiving Threat Classes") ;;;
  threat_classes <- get_classes E ;;
  log_local INFO
    (Msg (str_of_nat (length threat_classes) ++ " Threat Classes Returned")) ;;;
  prop_by_class <-
    (if add_properties then
       log_local INFO
         (Msg "Retreiving Threat Properies for each Threat Class") ;;;
       collect_properties E threat_classes []
     else ret []) ;;
  log_local INFO (Msg "Generating Report") ;;;
  output_report E threat_classes prop_by_class ;;;
  closing outfile.

(** Lines 256-261 of [main]: the client and the logger. *)
Definition main_head (args : Args) : M W unit :=
  emit (EB1Init (configfile_of args)) ;;;
  call (b1td_init E (configfile_of args)) ;;;
  setup_logging (debug args).

(** A computation that opens nothing and closes the handle [o], once,
    exactly when it returns. *)
Definition ends_closing {A} (o : option handle) (m : M W A) : Prop :=
  forall w,
    Forall no_handle (events (m w))
    /\ forall h,
        closes h (events (m w)) =
        match res (m w), o with
        | Ok _, Some h' => if Nat.eqb h' h then 1%nat else 0%nat
        | _, _ => 0%nat
        end.

(** A run that closes each handle it opened once when it returns, and
    closes nothing when it raises. *)
Definition close_safe (m : M W Z) : Prop :=
  forall w,
    (forall c p h,
        res (m w) = Ok c -> In (EOpen p (Some h)) (events (m w)) ->
        closes h (events (m w)) = 1%nat)
    /\ (forall e h, res (m w) = Raise e -> closes h (events (m w)) = 0%nat).

(** What [open_file] does, case by case: whether a file is at the path,
    what [shutil.move] and [open] answer, and whether the global name
    [log] is bound. *)
Definition open_file_cases (f : string) (w : W) : run W (option handle) :=
  let backup := f ++ ".bak" in
  if os_path_isfile E f w then
    match shutil_move E f backup w with
    | (Raise _, w1) =>
        if log_bound E then
          mkRun (Ok None) w1
            [EMove f backup false;
             ELog WARNING
               (Msg ("Could not back up existing file " ++ f ++ ", exiting."))]
        else mkRun (Raise (NameError "log")) w1 [EMove f backup false]
    | (Ok _, w1) =>
        if log_bound E then
          match open_w E f w1 with
          | (Ok h, w2) =>
              mkRun (Ok (Some h)) w2
                [EMove f backup true;
                 ELog INFO (Msg ("Outfile exists moved to " ++ backup));
                 EOpen f (Some h);
                 ELog INFO
                   (Msg ("Successfully opened output file " ++ f ++ "."))]
          | (Raise e, w2) =>
              mkRun (Ok None) w2
                [EMove f backup true;
                 ELog INFO (Msg ("Outfile exists moved to " ++ backup));
                 EOpen f None;
                 if is_IOError e then ELog ERROR (MsgExn e)
                 else ELog WARNING
                        (Msg ("Could not back up existing file " ++ f
                              ++ ", exiting."))]
          end
        else mkRun (Raise (NameError "log")) w1 [EMove f backup true]
    end
  else
    match open_w E f w with
    | (Ok h, w2) =>
        if log_bound E then
          mkRun (Ok (Some h)) w2
            [EOpen f (Some h);
             ELog INFO (Msg ("Opened file " ++ f ++ " for invalid lines."))]
        else mkRun (Raise (NameError "log")) w2 [EOpen f (Some h)]
    | (Raise e, w2) =>
        if is_IOError e then
          if log_bound E then
            mkRun (Ok None) w2 [EOpen f None; ELog ERROR (MsgExn e)]
          else mkRun (Raise (NameError "log")) w2 [EOpen f None]
        else mkRun (Raise e) w2 [EOpen f None]
    end.

End Vocabulary.

(** ** A service that answers with bodies of the wrong shape *)
Module Shapes.

Definition q : string := Demo.q.

(** A JSON array where an object is expected. *)
Definition array_body : string := "[]".

(** The expected fields hold [null]. *)
Definition null_body : string :=
  "{" ++ q ++ "threat_class" ++ q ++ ": null, "
      ++ q ++ "property" ++ q ++ ": null}".

(** The second class has no [id]; the second property is a number. *)
Definition no_id_body : string :=
  "{" ++ q ++ "threat_class" ++ q ++ ": [{" ++ q ++ "id" ++ q ++ ": "
      ++ q ++ "malware" ++ q ++ "}, {" ++ q ++ "name" ++ q ++ ": "
      ++ q ++ "phishing" ++ q ++ "}], "
      ++ q ++ "property" ++ q ++ ": [{" ++ q ++ "id" ++ q ++ ": "
      ++ q ++ "trojan" ++ q ++ "}, 7]}".

Definition no_id_value : list (string * pyval) :=
  [("threat_class",
    PList [PDict [("id", Demo.malware)]; PDict [("name", Demo.phishing)]]);
   ("property", PList [PDict [("id", PStr "trojan")]; PInt 7])].

Definition loads (s : string) : outcome pyval :=
  if String.eqb s array_body then Ok (PList [])
  else if String.eqb s null_body then
    Ok (PDict [("threat_class", PNone); ("property", PNone)])
  else if String.eqb s no_id_body then Ok (PDict no_id_value)
  else Raise JSONDecodeError.

(** Both requests are answered with status 200 and the given body. *)
Definition env (bound : bool) (body : string) : Env Demo.world :=
  {| log_bound := bound;
     return_codes_ok := [200; 201; 204]%Z;
     b1td_init := fun _ w => (Ok tt, w);
     b1td_threat_classes := fun w => (Ok (mkResponse 200 body), w);
     b1td_threat_properties := fun _ w => (Ok (mkResponse 200 body), w);
     json_loads := loads;
     os_path_isfile := Demo.isfile;
     shutil_move := Demo.move true;
     open_w := Demo.open_;
     file_close := fun _ w => w;
     repr_container := fun _ => "[...]" |}.

End Shapes.

(** ** The counter helpers of the script *)

(** A [collections.Counter]: its items, in iteration order. *)
Definition pycounter := list (pyval * Z).

Section Counters.
Context {W : Type} (E : Env W).

(** [output_counter], lines 118-132. *)
Definition output_counter (cc : pycounter) : M W unit :=
  for_each cc
    (fun _ key =>
       print ("  " ++ py_str E (fst key) ++ ": " ++ str_of_Z (snd key)))
    tt.

(** [getkeys], lines 135-148. *)
Definition getkeys (cc : pycounter) : M W (list pyval) :=
  let keys : list pyval := [] in
  for_each cc (fun keys item => ret (keys ++ [fst item])%list) keys.

End Counters.

(** ** Observations on the events of a run *)

(** The classes for which the properties were requested, in order. *)
Definition property_calls (evs : list event) : list pyval :=
  flat_map (fun e => match e with ECallProperties c => [c] | _ => [] end) evs.

(** How often the class list was requested. *)
Definition class_calls (evs : list event) : nat :=
  length (filter (fun e => match e with ECallClasses => true | _ => false end)
                 evs).

(** How far the progress bar was moved. *)
Definition progress (evs : list event) : nat :=
  list_sum (flat_map (fun e => match e with EPbarUpdate n => [n] | _ => [] end)
                     evs).

(** The events with the level of the logging configuration forgotten. *)
Definition forget_level (evs : list event) : list event :=
  map (fun e => match e with EBasicConfig _ => EBasicConfig INFO | _ => e end)
      evs.

Definition no_print (e : event) : Prop :=
  match e with EPrint _ => False | _ => True end.

Definition is_log (e : event) : Prop :=
  match e with ELog _ _ => True | _ => False end.

Definition no_property_call (e : event) : Prop :=
  match e with ECallProperties _ => False | _ => True end.

Definition no_class_call (e : event) : Prop :=
  match e with ECallClasses => False | _ => True end.

(** Nothing on the file system: no move, open, write or close. *)
Definition no_file_op (e : event) : Prop :=
  match e with
  | EMove _ _ _ | EOpen _ _ | EWrite _ _ | EClose _ => False
  | _ => True
  end.

(** Neither the opening nor the closing of the progress bar. *)
Definition inside_bar (e : event) : Prop :=
  match e with EPbarOpen _ | EPbarClose => False | _ => True end.

Definition no_move (e : event) : Prop :=
  match e with EMove _ _ _ => False | _ => True end.

Definition no_open (e : event) : Prop :=
  match e with EOpen _ _ => False | _ => True end.

(** The world in which the run of [main] started in [w] makes its class
    query: the one left by the initialisation and by the handling of the
    output file. *)
Definition query_world {W} (E : Env W) (args : Args) (w : W) : W :=
  world_after (open_part E (output args) (world_after (main_head E args w))).

(** The lines are the report of the run that makes its class query in the
    world [w1]: over the classes [cs] that [get_classes] returns there and
    the mapping [m] that the collection loop, started in the world the
    class query left, builds for them (empty when the properties were not
    asked for), the flat report when the mapping is empty and the grouped
    one otherwise. *)
Definition is_report {W} (E : Env W) (add_properties : bool) (w1 : W)
    (lines : list string) : Prop :=
  exists cs m,
    res (get_classes E w1) = Ok cs
    /\ (if add_properties
        then res (collect_properties E cs []
                    (world_after (get_classes E w1))) = Ok m
        else m = [])
    /\ lines = (if dict_truthy m then grouped_report E cs m
                else flat_report E cs)
    /\ (dict_truthy m = true <-> add_properties = true /\ cs <> []).

(** No request to the service. *)
Definition no_remote (e : event) : Prop :=
  match e with ECallClasses | ECallProperties _ => False | _ => True end.

(** The events fall in two parts: first one that prints nothing, then one
    that makes no request to the service. *)
Definition retrieval_then_rendering (evs : list event) : Prop :=
  exists before after,
    evs = (before ++ after)%list
    /\ Forall no_print before
    /\ Forall no_remote after.

(** * Properties *)

(** ** Runs *)

Section Runs.
Context {W : Type}.

Lemma bind_ok {A B} (m : M W A) (k : A -> M W B) w a :
  res (m w) = Ok a ->
  bind m k w =
  mkRun (res (k a (world_after (m w))))
        (world_after (k a (world_after (m w))))
        (events (m w) ++ events (k a (world_after (m w))))%list.
Proof. intros H. unfold bind. rewrite H. reflexivity. Qed.

Lemma bind_raise {A B} (m : M W A) (k : A -> M W B) w e :
  res (m w) = Raise e ->
  bind m k w = mkRun (Raise e) (world_after (m w)) (events (m w)).
Proof. intros H. unfold bind. rewrite H. reflexivity. Qed.

Lemma bind_res_ok_inv {A B} (m : M W A) (k : A -> M W B) w b :
  res (bind m k w) = Ok b ->
  exists a, res (m w) = Ok a /\ res (k a (world_after (m w))) = Ok b.
Proof.
  unfold bind. destruct (res (m w)) as [a|e]; simpl; intros H.
  - exists a. split; [reflexivity | exact H].
  - discriminate.
Qed.

Lemma bind_events_ok {A B} (m : M W A) (k : A -> M W B) w a :
  res (m w) = Ok a ->
  events (bind m k w) = (events (m w) ++ events (k a (world_after (m w))))%list.
Proof. intros H. rewrite (bind_ok _ _ _ _ H). reflexivity. Qed.

Lemma bind_lift_ok {A B} (a : A) (k : A -> M W B) w :
  bind (lift (Ok a)) k w = k a w.
Proof. unfold bind, lift. simpl. destruct (k a w). reflexivity. Qed.

Lemma bind_lift_raise {A B} e (k : A -> M W B) w :
  bind (lift (Raise e)) k w = mkRun (Raise e) w [].
Proof. reflexivity. Qed.

Lemma bind_emit {B} ev (k : unit -> M W B) w :
  bind (emit ev) k w =
  mkRun (res (k tt w)) (world_after (k tt w)) (ev :: events (k tt w)).
Proof. reflexivity. Qed.

Lemma bind_ret {A B} (a : A) (k : A -> M W B) w :
  bind (ret a) k w = k a w.
Proof. unfold bind, ret. simpl. destruct (k a w). reflexivity. Qed.

Lemma emits_ret {A} P (a : A) : emits P (@ret W A a).
Proof. intros w. constructor. Qed.

Lemma emits_raise {A} P e : emits P (@raise W A e).
Proof. intros w. constructor. Qed.

Lemma emits_lift {A} P (o : outcome A) : emits P (@lift W A o).
Proof. intros w. constructor. Qed.

Lemma emits_call {A} P (op : W -> outcome A * W) : emits P (call op).
Proof. intros w. constructor. Qed.

Lemma emits_emit P e : P e -> emits P (@emit W e).
Proof. intros H w. simpl. constructor; [exact H | constructor]. Qed.

Lemma emits_bind {A B} P (m : M W A) (k : A -> M W B) :
  emits P m -> (forall a, emits P (k a)) -> emits P (bind m k).
Proof.
  intros Hm Hk w. unfold bind.
  destruct (res (m w)) as [a|e]; simpl.
  - apply Forall_app. split; [apply Hm | apply Hk].
  - apply Hm.
Qed.

Lemma emits_try_except {A} P (m : M W A) sel h :
  emits P m -> (forall e, emits P (h e)) -> emits P (try_except m sel h).
Proof.
  intros Hm Hh w. unfold try_except.
  destruct (res (m w)) as [a|e]; [apply Hm|].
  destruct (sel e); simpl; [|apply Hm].
  apply Forall_app. split; [apply Hm | apply Hh].
Qed.

Lemma emits_try_finally {A} P (m : M W A) fin :
  emits P m -> emits P fin -> emits P (try_finally m fin).
Proof.
  intros Hm Hf w. unfold try_finally. simpl.
  apply Forall_app. split; [apply Hm | apply Hf].
Qed.

Lemma emits_for_each {A B} P (l : list A) (body : B -> A -> M W B) :
  (forall acc x, emits P (body acc x)) ->
  forall acc, emits P (for_each l body acc).
Proof.
  intros Hb. induction l as [|x l IH]; intros acc; simpl.
  - apply emits_ret.
  - apply emits_bind; [apply Hb | intros a; apply IH].
Qed.

Lemma emits_weaken {A} (P Q : event -> Prop) (m : M W A) :
  (forall e, P e -> Q e) -> emits P m -> emits Q m.
Proof. intros H Hm w. eapply Forall_impl; [exact H | apply Hm]. Qed.

(** A loop whose body only prints. *)
Lemma for_each_print {A} (f : A -> string) (l : list A) (w : W) :
  for_each l (fun (_ : unit) x => emit (EPrint (f x))) tt w =
  mkRun (Ok tt) w (map (fun x => EPrint (f x)) l).
Proof.
  induction l as [|x l IH]; simpl; [reflexivity|].
  unfold bind. simpl. rewrite IH. reflexivity.
Qed.

(** A loop that appends to a list what a pure step gives for each element. *)
Lemma for_each_append {A B} (f : A -> outcome B) (l : list A) (ys : list B) :
  Forall2 (fun x y => f x = Ok y) l ys ->
  forall (acc : list B) (w : W),
    for_each l (fun acc x => y <- lift (f x) ;; ret (acc ++ [y])%list) acc w
    = mkRun (Ok (acc ++ ys)%list) w [].
Proof.
  induction 1 as [|x y l ys Hxy _ IH]; intros acc w; simpl.
  - unfold ret. rewrite app_nil_r. reflexivity.
  - unfold bind at 1. unfold bind at 1. unfold lift at 1. simpl.
    rewrite Hxy. simpl. rewrite IH. simpl.
    rewrite <- app_assoc. reflexivity.
Qed.

End Runs.

Ltac emits_step :=
  match goal with
  | |- emits _ (bind _ _) => apply emits_bind; [| intro]
  | |- emits _ (try_except _ _ _) => apply emits_try_except; [| intro]
  | |- emits _ (try_finally _ _) => apply emits_try_finally
  | |- emits _ (for_each _ _ _) => apply emits_for_each; intros
  | |- emits _ (ret _) => apply emits_ret
  | |- emits _ (raise _) => apply emits_raise
  | |- emits _ (lift _) => apply emits_lift
  | |- emits _ (call _) => apply emits_call
  | |- emits _ (emit _) => apply emits_emit
  | |- emits _ (if ?b then _ else _) => destruct b
  | |- emits _ (match ?x with _ => _ end) => destruct x
  end.

(** ** The taxonomy client: [get_classes] and [get_properties] *)

Section Client.
Context {W : Type} (E : Env W).

Lemma classes_call_ok w r :
  fst (b1td_threat_classes E w) = Ok r ->
  res ((emit ECallClasses ;;; call (b1td_threat_classes E)) w) = Ok r.
Proof. intros H. unfold bind, emit, call. simpl. exact H. Qed.

Lemma properties_call_ok tclass w r :
  fst (b1td_threat_properties E tclass w) = Ok r ->
  res ((emit (ECallProperties tclass) ;;;
        call (b1td_threat_properties E tclass)) w) = Ok r.
Proof. intros H. unfold bind, emit, call. simpl. exact H. Qed.

(** An ok response whose body is an object with the field holds the array
    [elems]: the ids come back in the order of the array. *)
Lemma get_classes_ids w r d elems ids :
  fst (b1td_threat_classes E w) = Ok r ->
  status_ok E r = true ->
  json_loads E (text r) = Ok (PDict d) ->
  assoc "threat_class" d = Some (PList elems) ->
  Forall2 (fun e i => py_getitem e "id" = Ok i) elems ids ->
  get_classes E w =
  mkRun (Ok ids) (snd (b1td_threat_classes E w)) [ECallClasses].
Proof.
  intros Hr Hok Hj Hf Hids. unfold status_ok in Hok.
  unfold get_classes.
  rewrite (bind_ok _ _ w r (classes_call_ok w r Hr)).
  rewrite Hok, Hj, bind_lift_ok. cbn [py_in_keys]. rewrite Hf, bind_lift_ok.
  cbn [py_getitem]. rewrite Hf, bind_lift_ok. cbn [py_iter].
  rewrite bind_lift_ok.
  rewrite (for_each_append (fun e => py_getitem e "id") elems ids Hids).
  reflexivity.
Qed.

Lemma get_properties_ids tclass w r d elems ids :
  fst (b1td_threat_properties E tclass w) = Ok r ->
  status_ok E r = true ->
  json_loads E (text r) = Ok (PDict d) ->
  assoc "property" d = Some (PList elems) ->
  Forall2 (fun e i => py_getitem e "id" = Ok i) elems ids ->
  get_properties E tclass w =
  mkRun (Ok ids) (snd (b1td_threat_properties E tclass w))
        [ECallProperties tclass].
Proof.
  intros Hr Hok Hj Hf Hids. unfold status_ok in Hok.
  unfold get_properties.
  rewrite (bind_ok _ _ w r (properties_call_ok tclass w r Hr)).
  rewrite Hok, Hj, bind_lift_ok. cbn [py_in_keys]. rewrite Hf, bind_lift_ok.
  cbn [py_getitem]. rewrite Hf, bind_lift_ok. cbn [py_iter].
  rewrite bind_lift_ok.
  rewrite (for_each_append (fun e => py_getitem e "id") elems ids Hids).
  reflexivity.
Qed.

(** An ok response whose body the decoder refuses: the decoder's exception
    leaves the function. *)
Lemma get_classes_decode_error w r e :
  fst (b1td_threat_classes E w) = Ok r ->
  status_ok E r = true ->
  json_loads E (text r) = Raise e ->
  res (get_classes E w) = Raise e.
Proof.
  intros Hr Hok Hj. unfold status_ok in Hok. unfold get_classes.
  rewrite (bind_ok _ _ w r (classes_call_ok w r Hr)).
  rewrite Hok, Hj, bind_lift_raise. reflexivity.
Qed.

Lemma get_properties_decode_error tclass w r e :
  fst (b1td_threat_properties E tclass w) = Ok r ->
  status_ok E r = true ->
  json_loads E (text r) = Raise e ->
  res (get_properties E tclass w) = Raise e.
Proof.
  intros Hr Hok Hj. unfold status_ok in Hok. unfold get_properties.
  rewrite (bind_ok _ _ w r (properties_call_ok tclass w r Hr)).
  rewrite Hok, Hj, bind_lift_raise. reflexivity.
Qed.

(** An ok response whose body is an object without the field: the
    data-format branch, which goes through the global name [log]. *)
Lemma get_classes_no_field w r d :
  fst (b1td_threat_classes E w) = Ok r ->
  status_ok E r = true ->
  json_loads E (text r) = Ok (PDict d) ->
  assoc "threat_class" d = None ->
  res (get_classes E w) =
  if log_bound E then Ok [] else Raise (NameError "log").
Proof.
  intros Hr Hok Hj Hf. unfold status_ok in Hok. unfold get_classes.
  rewrite (bind_ok _ _ w r (classes_call_ok w r Hr)).
  rewrite Hok, Hj, bind_lift_ok. cbn [py_in_keys]. rewrite Hf, bind_lift_ok.
  unfold bind, log_global. destruct (log_bound E); reflexivity.
Qed.

Lemma get_properties_no_field tclass w r d :
  fst (b1td_threat_properties E tclass w) = Ok r ->
  status_ok E r = true ->
  json_loads E (text r) = Ok (PDict d) ->
  assoc "property" d = None ->
  res (get_properties E tclass w) =
  if log_bound E then Ok [] else Raise (NameError "log").
Proof.
  intros Hr Hok Hj Hf. unfold status_ok in Hok. unfold get_properties.
  rewrite (bind_ok _ _ w r (properties_call_ok tclass w r Hr)).
  rewrite Hok, Hj, bind_lift_ok. cbn [py_in_keys]. rewrite Hf, bind_lift_ok.
  unfold bind, log_global. destruct (log_bound E); reflexivity.
Qed.

(** A response whose status is not among the ok codes: the API-error
    branch, which goes through the global name [log] as well; the body is
    not looked at. *)
Lemma get_classes_bad_status w r :
  fst (b1td_threat_classes E w) = Ok r ->
  status_ok E r = false ->
  res (get_classes E w) =
  if log_bound E then Ok [] else Raise (NameError "log").
Proof.
  intros Hr Hok. unfold status_ok in Hok. unfold get_classes.
  rewrite (bind_ok _ _ w r (classes_call_ok w r Hr)).
  rewrite Hok. unfold bind, log_global. destruct (log_bound E); reflexivity.
Qed.

Lemma get_properties_bad_status tclass w r :
  fst (b1td_threat_properties E tclass w) = Ok r ->
  status_ok E r = false ->
  res (get_properties E tclass w) =
  if log_bound E then Ok [] else Raise (NameError "log").
Proof.
  intros Hr Hok. unfold status_ok in Hok. unfold get_properties.
  rewrite (bind_ok _ _ w r (properties_call_ok tclass w r Hr)).
  rewrite Hok. unfold bind, log_global. destruct (log_bound E); reflexivity.
Qed.

(** A fault of the transport leaves the function as it came. *)
Lemma get_classes_transport_fault w e :
  fst (b1td_threat_classes E w) = Raise e ->
  res (get_classes E w) = Raise e.
Proof.
  intros Hr. unfold get_classes.
  rewrite (bind_raise _ _ w e) by (unfold bind, emit, call; simpl; exact Hr).
  reflexivity.
Qed.

End Client.

(** ** The dictionary *)

Lemma hkey_eqb_eq a b : hkey_eqb a b = true <-> a = b.
Proof.
  destruct a, b; simpl; split; intros H; try discriminate; try reflexivity.
  - apply Z.eqb_eq in H. congruence.
  - injection H as ->. apply Z.eqb_refl.
  - apply String.eqb_eq in H. congruence.
  - injection H as ->. apply String.eqb_refl.
Qed.

Lemma hkey_eqb_refl a : hkey_eqb a a = true.
Proof. apply hkey_eqb_eq. reflexivity. Qed.

Lemma dict_find_store key k v d :
  py_hash key = Some k -> dict_find k (dict_store key k v d) = Some v.
Proof.
  intros Hk. induction d as [|[k' v'] d IH]; simpl.
  - rewrite Hk, hkey_eqb_refl. reflexivity.
  - destruct (py_hash k') as [h|] eqn:Hh.
    + destruct (hkey_eqb h k) eqn:Heq; simpl; rewrite Hh, Heq;
        [reflexivity | exact IH].
    + simpl. rewrite Hh. exact IH.
Qed.

Lemma dict_find_store_other key k v d k2 :
  py_hash key = Some k -> k2 <> k ->
  dict_find k2 (dict_store key k v d) = dict_find k2 d.
Proof.
  intros Hk Hne. induction d as [|[k' v'] d IH]; simpl.
  - rewrite Hk. destruct (hkey_eqb k k2) eqn:Heq; [|reflexivity].
    apply hkey_eqb_eq in Heq. congruence.
  - destruct (py_hash k') as [h|] eqn:Hh.
    + destruct (hkey_eqb h k) eqn:Heq; simpl; rewrite Hh.
      * apply hkey_eqb_eq in Heq. subst h.
        destruct (hkey_eqb k k2) eqn:Heq2; [|reflexivity].
        apply hkey_eqb_eq in Heq2. congruence.
      * rewrite IH. reflexivity.
    + simpl. rewrite Hh. exact IH.
Qed.

Lemma dict_store_length key k v d :
  (length (dict_store key k v d) <= S (length d))%nat.
Proof.
  induction d as [|[k' v'] d IH]; simpl; [lia|].
  destruct (py_hash k'); [destruct (hkey_eqb h k)|]; simpl; lia.
Qed.

Lemma dict_store_keys key k v d x :
  In x (dict_keys (dict_store key k v d)) -> x = key \/ In x (dict_keys d).
Proof.
  unfold dict_keys. induction d as [|[k' v'] d IH]; simpl.
  - intros [H|[]]. left. symmetry. exact H.
  - destruct (py_hash k'); [destruct (hkey_eqb h k)|]; simpl;
      intros [H|H]; auto; destruct (IH H); auto.
Qed.

Lemma dict_mem_setitem_same key v d d' :
  dict_setitem key v d = Ok d' -> dict_getitem key d' = Ok v.
Proof.
  unfold dict_setitem, dict_getitem.
  destruct (py_hash key) as [k|] eqn:Hk; [|discriminate].
  intros H. injection H as <-. rewrite (dict_find_store _ _ _ _ Hk).
  reflexivity.
Qed.

Lemma dict_mem_setitem_keep key v d d' x :
  dict_setitem key v d = Ok d' -> dict_mem x d = true -> dict_mem x d' = true.
Proof.
  unfold dict_setitem, dict_mem.
  destruct (py_hash key) as [k|] eqn:Hk; [|discriminate].
  intros H. injection H as <-.
  destruct (py_hash x) as [kx|]; [|discriminate].
  destruct (hkey_eqb kx k) eqn:Heq.
  - apply hkey_eqb_eq in Heq. subst kx.
    rewrite (dict_find_store _ _ _ _ Hk). reflexivity.
  - rewrite (dict_find_store_other _ _ _ _ kx Hk); [trivial|].
    intros ->. rewrite hkey_eqb_refl in Heq. discriminate.
Qed.

Lemma dict_getitem_mem key d v :
  dict_getitem key d = Ok v -> dict_mem key d = true.
Proof.
  unfold dict_getitem, dict_mem. destruct (py_hash key); [|discriminate].
  destruct (dict_find h d); [reflexivity | discriminate].
Qed.

Lemma dict_mem_getitem key d :
  dict_mem key d = true -> exists v, dict_getitem key d = Ok v.
Proof.
  unfold dict_getitem, dict_mem. destruct (py_hash key); [|discriminate].
  destruct (dict_find h d) as [v|]; [|discriminate]. exists v. reflexivity.
Qed.

(** ** The collection loop *)

Section Collector.
Context {W : Type} (E : Env W).

(** A turn that completes has stored under its class what
    [get_properties] returned for it. *)
Lemma collect_step_ok d tc w d' :
  res (collect_step E d tc w) = Ok d' ->
  exists ps, res (get_properties E tc w) = Ok ps
             /\ dict_setitem tc ps d = Ok d'.
Proof.
  unfold collect_step. intros H.
  apply bind_res_ok_inv in H. destruct H as (ps & Hps & H).
  exists ps. split; [exact Hps|].
  apply bind_res_ok_inv in H. destruct H as (d1 & Hd1 & H).
  unfold lift in Hd1. simpl in Hd1.
  unfold bind, emit, ret in H. simpl in H. congruence.
Qed.

Lemma collect_loop_ok cs : forall d w m,
  res (for_each cs (collect_step E) d w) = Ok m ->
  (length m <= length d + length cs)%nat
  /\ (forall c, In c cs -> dict_mem c m = true)
  /\ (forall c, dict_mem c d = true -> dict_mem c m = true)
  /\ (forall k, In k (dict_keys m) -> In k (dict_keys d) \/ In k cs).
Proof.
  induction cs as [|c cs IH]; intros d w m H; simpl in H.
  - unfold ret in H. simpl in H. injection H as <-.
    repeat split; auto; try lia; intros c [].
  - apply bind_res_ok_inv in H. destruct H as (d1 & Hstep & H).
    destruct (collect_step_ok _ _ _ _ Hstep) as (ps & _ & Hset).
    destruct (IH _ _ _ H) as (Hlen & Hin & Hkeep & Hkeys).
    assert (Hc : dict_mem c d1 = true)
      by (eapply dict_getitem_mem, dict_mem_setitem_same; exact Hset).
    repeat split.
    + assert (length d1 <= S (length d))%nat.
      { unfold dict_setitem in Hset. destruct (py_hash c); [|discriminate].
        injection Hset as <-. apply dict_store_length. }
      simpl. lia.
    + intros x [<-|Hx]; [apply Hkeep; exact Hc | apply Hin; exact Hx].
    + intros x Hx. apply Hkeep.
      eapply dict_mem_setitem_keep; [exact Hset | exact Hx].
    + intros k Hk. destruct (Hkeys k Hk) as [Hk1|Hk1].
      * unfold dict_setitem in Hset. destruct (py_hash c); [|discriminate].
        injection Hset as <-.
        destruct (dict_store_keys _ _ _ _ _ Hk1) as [->|Hk2];
          [right; left; reflexivity | left; exact Hk2].
      * right. right. exact Hk1.
Qed.

(** The progress bar's exit step does not change how the loop ended. *)
Lemma collect_properties_res cs d w :
  res (collect_properties E cs d w) = res (for_each cs (collect_step E) d w).
Proof. reflexivity. Qed.

End Collector.

(** ** The renderer *)

Section Renderer.
Context {W : Type} (E : Env W).

Lemma output_report_flat cs w :
  output_report E cs [] w = mkRun (Ok tt) w (map EPrint (flat_report E cs)).
Proof.
  unfold output_report, flat_report, print. cbn [dict_truthy].
  rewrite bind_emit.
  rewrite (bind_ok _ _ w tt)
    by (rewrite (for_each_print (fun c => "     " ++ py_str E c)); reflexivity).
  rewrite (for_each_print (fun c => "     " ++ py_str E c)).
  simpl. rewrite map_app, map_map. reflexivity.
Qed.

Lemma grouped_block_run m c ps w :
  dict_getitem c m = Ok ps ->
  ((print EmptyString ;;;
    print ("Threat Class: " ++ py_str E c) ;;;
    print " Associated Threat Properties:" ;;;
    props <- lift (dict_getitem c m) ;;
    for_each props (fun (_ : unit) prop => print ("     " ++ py_str E prop)) tt)
   : M W unit) w
  = mkRun (Ok tt) w (map EPrint (grouped_block E m c)).
Proof.
  intros H. unfold print, grouped_block. rewrite !bind_emit.
  rewrite H, bind_lift_ok.
  rewrite (for_each_print (fun p => "     " ++ py_str E p)).
  simpl. rewrite map_map. reflexivity.
Qed.

Lemma grouped_loop_run m cs : forall w,
  (forall c, In c cs -> dict_mem c m = true) ->
  for_each cs
    (fun (_ : unit) tclass =>
       (print EmptyString ;;;
        print ("Threat Class: " ++ py_str E tclass) ;;;
        print " Associated Threat Properties:" ;;;
        props <- lift (dict_getitem tclass m) ;;
        for_each props
          (fun (_ : unit) prop => print ("     " ++ py_str E prop)) tt)
       : M W unit)
    tt w
  = mkRun (Ok tt) w (map EPrint (flat_map (grouped_block E m) cs)).
Proof.
  induction cs as [|c cs IH]; intros w Hall; [reflexivity|].
  destruct (dict_mem_getitem c m (Hall c (or_introl eq_refl))) as (ps & Hps).
  cbn [for_each].
  rewrite (bind_ok _ _ w tt) by (rewrite (grouped_block_run m c ps w Hps);
                                 reflexivity).
  rewrite (grouped_block_run m c ps w Hps). cbn [world_after events res].
  rewrite IH by (intros x Hx; apply Hall; right; exact Hx).
  cbn [flat_map]. rewrite map_app. reflexivity.
Qed.

Lemma output_report_grouped cs m w :
  dict_truthy m = true ->
  (forall c, In c cs -> dict_mem c m = true) ->
  output_report E cs m w = mkRun (Ok tt) w (map EPrint (grouped_report E cs m)).
Proof.
  intros Ht Hall. unfold output_report, grouped_report. rewrite Ht.
  rewrite (bind_ok _ _ w tt) by (rewrite (grouped_loop_run m cs w Hall);
                                 reflexivity).
  rewrite (grouped_loop_run m cs w Hall). unfold print, emit.
  cbn [world_after events res]. rewrite map_app. reflexivity.
Qed.

(** The loop of grouped mode over classes that have an entry, followed by
    one whose lookup raises. *)
Lemma grouped_loop_stops m pre c post ex : forall w,
  (forall x, In x pre -> dict_mem x m = true) ->
  dict_getitem c m = Raise ex ->
  for_each (pre ++ c :: post)
    (fun (_ : unit) tclass =>
       (print EmptyString ;;;
        print ("Threat Class: " ++ py_str E tclass) ;;;
        print " Associated Threat Properties:" ;;;
        props <- lift (dict_getitem tclass m) ;;
        for_each props
          (fun (_ : unit) prop => print ("     " ++ py_str E prop)) tt)
       : M W unit)
    tt w
  = mkRun (Raise ex) w
      (map EPrint
         (app (flat_map (grouped_block E m) pre)
              [EmptyString; "Threat Class: " ++ py_str E c;
               " Associated Threat Properties:"])).
Proof.
  induction pre as [|x pre IH]; intros w Hall Hc.
  - cbn [app for_each flat_map map].
    rewrite (bind_raise _ _ w ex);
      unfold print; rewrite !bind_emit, Hc, bind_lift_raise; reflexivity.
  - destruct (dict_mem_getitem x m (Hall x (or_introl eq_refl)))
      as (ps & Hps).
    change ((x :: pre) ++ c :: post)%list with (x :: (pre ++ c :: post))%list.
    cbn [for_each].
    rewrite (bind_ok _ _ w tt) by (rewrite (grouped_block_run m x ps w Hps);
                                   reflexivity).
    rewrite (grouped_block_run m x ps w Hps). cbn [world_after events res].
    rewrite IH by (try (intros y Hy; apply Hall; right); assumption).
    cbn [flat_map res world_after events]. rewrite <- map_app, <- app_assoc.
    reflexivity.
Qed.

Lemma output_report_stops pre c post m ex w :
  dict_truthy m = true ->
  (forall x, In x pre -> dict_mem x m = true) ->
  dict_getitem c m = Raise ex ->
  output_report E (pre ++ c :: post) m w
  = mkRun (Raise ex) w
      (map EPrint
         (app (flat_map (grouped_block E m) pre)
              [EmptyString; "Threat Class: " ++ py_str E c;
               " Associated Threat Properties:"])).
Proof.
  intros Ht Hall Hc. unfold output_report. rewrite Ht.
  rewrite (bind_raise _ _ w ex)
    by (rewrite (grouped_loop_stops m pre c post ex w Hall Hc); reflexivity).
  rewrite (grouped_loop_stops m pre c post ex w Hall Hc). reflexivity.
Qed.

(** Either every class of a sequence has an entry in the mapping, or there
    is a first one whose lookup raises. *)
Lemma first_failing_class (m : pydict) (cs : list pyval) :
  (forall c, In c cs -> dict_mem c m = true)
  \/ (exists pre c post ex,
        cs = app pre (c :: post)
        /\ (forall x, In x pre -> dict_mem x m = true)
        /\ dict_getitem c m = Raise ex).
Proof.
  induction cs as [|c cs IH]; [left; intros c []|].
  destruct (dict_getitem c m) as [ps|ex] eqn:Hc.
  - apply dict_getitem_mem in Hc.
    destruct IH as [Hall | (pre & c' & post & ex & -> & Hpre & Hc')].
    + left. intros x [<-|Hx]; auto.
    + right. exists (c :: pre), c', post, ex.
      split; [reflexivity|]. split; [|exact Hc'].
      intros x [<-|Hx]; auto.
  - right. exists [], c, cs, ex.
    split; [reflexivity|]. split; [intros x []|exact Hc].
Qed.

Lemma output_report_grouped_lines cs m :
  dict_truthy m = true ->
  emits (prints E (grouped_line E)) (output_report E cs m).
Proof.
  intros Ht. unfold output_report, print. rewrite Ht.
  repeat emits_step; cbn [prints]; unfold grouped_line;
    first [ left; reflexivity
          | right; left; eexists; reflexivity
          | right; right; left; reflexivity
          | right; right; right; eexists; reflexivity ].
Qed.

Lemma output_report_prints cs m :
  emits (prints E (fun _ => True)) (output_report E cs m).
Proof.
  unfold output_report, print.
  repeat emits_step; simpl; exact I.
Qed.

Lemma grouped_line_not_flat_header l :
  grouped_line E l -> l <> "Threat Classes:".
Proof.
  intros [->|[(c & ->)|[->|(p & ->)]]] H; simpl in H; discriminate.
Qed.

Lemma flat_line_not_grouped l cs :
  In l (flat_report E cs) ->
  l <> " Associated Threat Properties:"
  /\ forall c, l <> "Threat Class: " ++ c.
Proof.
  unfold flat_report. intros Hin.
  apply in_app_or in Hin. destruct Hin as [[<-|Hin]|[<-|[]]].
  - split; [|intros c]; intros H; simpl in H; discriminate.
  - apply in_map_iff in Hin. destruct Hin as (x & <- & _).
    split; [|intros c]; intros H; simpl in H; discriminate.
  - split; [|intros c]; intros H; simpl in H; discriminate.
Qed.

End Renderer.

(** ** The run of [main] *)

Section Main.
Context {W : Type} (E : Env W).

Lemma main_unfold args w :
  main E args w =
  (emit (EB1Init (configfile_of args)) ;;;
   call (b1td_init E (configfile_of args)) ;;;
   setup_logging (debug args) ;;;
   outfile <- open_part E (output args) ;;
   main_tail E (properties args) outfile) w.
Proof. reflexivity. Qed.

(** *** What each part can emit *)

Lemma silent_get_classes : emits silent (get_classes E).
Proof.
  unfold get_classes, log_global.
  repeat emits_step; exact I.
Qed.

Lemma silent_get_properties tc : emits silent (get_properties E tc).
Proof.
  unfold get_properties, log_global.
  repeat emits_step; exact I.
Qed.

Lemma silent_collect_properties cs d : emits silent (collect_properties E cs d).
Proof.
  unfold collect_properties.
  repeat emits_step; try exact I.
  unfold collect_step.
  repeat emits_step; try exact I.
  apply silent_get_properties.
Qed.

Lemma no_print_open_file f :
  emits (fun e => match e with
                  | EMove _ _ _ | EOpen _ _ | ELog _ _ => True
                  | _ => False
                  end) (open_file E f).
Proof.
  intros w. unfold open_file.
  destruct (os_path_isfile E f w);
    match goal with
    | |- Forall ?P (events (?m w)) =>
        cut (emits P m); [intros Hc; exact (Hc w)|]
    end;
    unfold log_global;
    repeat emits_step;
    try exact I;
    intros w'; simpl; repeat constructor.
Qed.

Lemma silent_main_head args : emits silent (main_head E args).
Proof.
  unfold main_head, setup_logging. repeat emits_step; exact I.
Qed.

Lemma emits_closing P o :
  (forall h, P (EClose h)) -> (forall l m, P (ELog l m)) -> emits P (closing E o).
Proof.
  intros Hc Hl. unfold closing, log_local.
  repeat emits_step; auto.
  intros w. simpl. repeat constructor. apply Hc.
Qed.

Lemma emits_main_tail P p o :
  (forall e, silent e -> P e) ->
  (forall l, P (EPrint l)) ->
  (forall h, P (EClose h)) ->
  emits P (main_tail E p o).
Proof.
  intros Hs Hp Hc. unfold main_tail, log_local.
  repeat emits_step;
    try (apply Hs; exact I);
    try (apply (emits_weaken silent P _ Hs);
         first [apply silent_get_classes | apply silent_collect_properties]).
  - apply (emits_weaken (prints E (fun _ => True)) P).
    + intros [] H; simpl in H; try contradiction. apply Hp.
    + apply output_report_prints.
  - apply emits_closing; [exact Hc | intros; apply Hs; exact I].
Qed.

Lemma emits_open_part P o :
  (forall s d b, P (EMove s d b)) ->
  (forall p h, P (EOpen p h)) ->
  (forall l m, P (ELog l m)) ->
  emits P (open_part E o).
Proof.
  intros Hm Ho Hl. unfold open_part, log_local.
  repeat emits_step; auto.
  eapply emits_weaken; [|apply no_print_open_file].
  intros [] H; simpl in H; try contradiction; auto.
Qed.

End Main.

(** *** Closing the output handle *)

Lemma closes_app h a b : closes h (a ++ b) = (closes h a + closes h b)%nat.
Proof. unfold closes. rewrite filter_app, length_app. reflexivity. Qed.

Lemma closes_no_close h evs : Forall no_close evs -> closes h evs = 0%nat.
Proof.
  unfold closes. induction 1 as [|e evs He _ IH]; [reflexivity|].
  destruct e; simpl in *; try exact IH. contradiction.
Qed.

Lemma no_handle_not_in evs p h :
  Forall no_handle evs -> ~ In (EOpen p (Some h)) evs.
Proof.
  intros H Hin. rewrite Forall_forall in H. exact (H _ Hin).
Qed.

Lemma written_no_write h evs : Forall no_write evs -> written h evs = [].
Proof.
  unfold written. induction 1 as [|e evs He _ IH]; [reflexivity|].
  destruct e; simpl in *; try exact IH. contradiction.
Qed.

Lemma console_silent evs : Forall silent evs -> console evs = [].
Proof.
  unfold console. induction 1 as [|e evs He _ IH]; [reflexivity|].
  destruct e; simpl in *; try exact IH; contradiction.
Qed.

Section Closing.
Context {W : Type} (E : Env W).

Lemma ends_closing_bind {A B} o (m : M W A) (k : A -> M W B) :
  emits (fun e => no_close e /\ no_handle e) m ->
  (forall a, ends_closing o (k a)) ->
  ends_closing o (bind m k).
Proof.
  intros Hm Hk w.
  assert (Hc : Forall no_close (events (m w)))
    by (eapply Forall_impl; [|apply Hm]; intros e [H _]; exact H).
  assert (Hh : Forall no_handle (events (m w)))
    by (eapply Forall_impl; [|apply Hm]; intros e [_ H]; exact H).
  unfold bind. destruct (res (m w)) as [a|e]; simpl.
  - destruct (Hk a (world_after (m w))) as [Hk1 Hk2]. split.
    + apply Forall_app. split; assumption.
    + intros h. rewrite closes_app, (closes_no_close h _ Hc). apply Hk2.
  - split; [exact Hh|]. intros h. apply closes_no_close. exact Hc.
Qed.

Lemma ends_closing_closing o : ends_closing o (closing E o).
Proof.
  intros w. unfold closing, log_local, do_close, bind, emit, ret.
  destruct o as [h'|]; simpl.
  - split; [repeat constructor|]. intros h. unfold closes. simpl.
    destruct (Nat.eqb h' h); reflexivity.
  - split; [repeat constructor|]. intros h. reflexivity.
Qed.

Lemma silent_quiet e : silent e -> no_close e /\ no_handle e.
Proof. destruct e; simpl; try contradiction; auto. Qed.

Lemma ends_closing_main_tail p o : ends_closing o (main_tail E p o).
Proof.
  unfold main_tail, log_local.
  apply ends_closing_bind; [apply emits_emit; simpl; auto | intros _].
  apply ends_closing_bind;
    [apply (emits_weaken silent _ _ silent_quiet), silent_get_classes
    | intros cs].
  apply ends_closing_bind; [apply emits_emit; simpl; auto | intros _].
  apply ends_closing_bind.
  { destruct p.
    - apply emits_bind; [apply emits_emit; simpl; auto | intros _].
      apply (emits_weaken silent _ _ silent_quiet), silent_collect_properties.
    - apply emits_ret. }
  intros m.
  apply ends_closing_bind; [apply emits_emit; simpl; auto | intros _].
  apply ends_closing_bind.
  { apply (emits_weaken (prints E (fun _ => True))).
    - intros [] H; simpl in H; try contradiction. simpl. auto.
    - apply output_report_prints. }
  intros _. apply ends_closing_closing.
Qed.

(** *** [open_file] *)

Lemma log_then_ret {A} lvl msg (a : A) (w : W) :
  (log_global E lvl msg ;;; ret a) w =
  if log_bound E then mkRun (Ok a) w [ELog lvl msg]
  else mkRun (Raise (NameError "log")) w [].
Proof. unfold log_global. destruct (log_bound E); reflexivity. Qed.

Lemma open_block_run f msg w :
  (handler <- do_open E f ;; log_global E INFO msg ;;; ret (Some handler)) w =
  match open_w E f w with
  | (Ok h, w2) =>
      if log_bound E then
        mkRun (Ok (Some h)) w2 [EOpen f (Some h); ELog INFO msg]
      else mkRun (Raise (NameError "log")) w2 [EOpen f (Some h)]
  | (Raise e, w2) => mkRun (Raise e) w2 [EOpen f None]
  end.
Proof.
  unfold bind at 1. unfold do_open. cbv zeta.
  destruct (open_w E f w) as [[h|e] w2]; cbn [fst snd res world_after events].
  - rewrite log_then_ret. destruct (log_bound E); reflexivity.
  - reflexivity.
Qed.

Lemma try_open_run f msg w :
  try_except
    (handler <- do_open E f ;; log_global E INFO msg ;;; ret (Some handler))
    is_IOError
    (fun err => log_global E ERROR (MsgExn err) ;;; ret None) w =
  match open_w E f w with
  | (Ok h, w2) =>
      if log_bound E then
        mkRun (Ok (Some h)) w2 [EOpen f (Some h); ELog INFO msg]
      else mkRun (Raise (NameError "log")) w2 [EOpen f (Some h)]
  | (Raise e, w2) =>
      if is_IOError e then
        if log_bound E then
          mkRun (Ok None) w2 [EOpen f None; ELog ERROR (MsgExn e)]
        else mkRun (Raise (NameError "log")) w2 [EOpen f None]
      else mkRun (Raise e) w2 [EOpen f None]
  end.
Proof.
  unfold try_except. cbv zeta. rewrite open_block_run.
  destruct (open_w E f w) as [[h|e] w2].
  - destruct (log_bound E); reflexivity.
  - cbn [res world_after events]. destruct (is_IOError e); [|reflexivity].
    rewrite log_then_ret. destruct (log_bound E); reflexivity.
Qed.

Lemma bind_log_global {B} lvl msg (k : unit -> M W B) (w : W) :
  bind (log_global E lvl msg) k w =
  if log_bound E then
    mkRun (res (k tt w)) (world_after (k tt w)) (ELog lvl msg :: events (k tt w))
  else mkRun (Raise (NameError "log")) w [].
Proof. unfold log_global. destruct (log_bound E); reflexivity. Qed.

Lemma move_block_run {A} f msg (T : M W A) (w : W) :
  (do_move E f (f ++ ".bak") ;;; log_global E INFO msg ;;; T) w =
  match shutil_move E f (f ++ ".bak") w with
  | (Ok _, w1) =>
      if log_bound E then
        mkRun (res (T w1)) (world_after (T w1))
              (EMove f (f ++ ".bak") true :: ELog INFO msg :: events (T w1))
      else mkRun (Raise (NameError "log")) w1 [EMove f (f ++ ".bak") true]
  | (Raise e, w1) => mkRun (Raise e) w1 [EMove f (f ++ ".bak") false]
  end.
Proof.
  unfold bind at 1. unfold do_move. cbv zeta.
  destruct (shutil_move E f (f ++ ".bak") w) as [[u|e] w1];
    cbn [fst snd res world_after events]; [|reflexivity].
  rewrite bind_log_global. destruct (log_bound E); reflexivity.
Qed.

Lemma open_file_by_cases f w : open_file E f w = open_file_cases E f w.
Proof.
  unfold open_file_cases, open_file. cbv zeta.
  destruct (os_path_isfile E f w); [|apply try_open_run].
  unfold try_except at 1. cbv zeta.
  rewrite move_block_run.
  destruct (shutil_move E f (f ++ ".bak") w) as [[u|e] w1].
  - destruct (log_bound E) eqn:Hb.
    + rewrite try_open_run, Hb.
      destruct (open_w E f w1) as [[h|e] w2];
        cbn [res world_after events app]; [reflexivity|].
      destruct (is_IOError e); cbn [res world_after events app];
        [reflexivity|].
      rewrite log_then_ret, Hb. reflexivity.
    + cbn [res world_after events app]. rewrite log_then_ret, Hb.
      reflexivity.
  - cbn [res world_after events app].
    rewrite log_then_ret. destruct (log_bound E); reflexivity.
Qed.

Ltac open_file_by_cases_tac :=
  rewrite open_file_by_cases; unfold open_file_cases; cbv zeta.

(** With the global name unbound and a file at the path, the file is
    moved or not, nothing is opened, and [NameError] leaves. *)
Lemma open_file_unbound_existing f w :
  log_bound E = false ->
  os_path_isfile E f w = true ->
  res (open_file E f w) = Raise (NameError "log")
  /\ exists b, events (open_file E f w) = [EMove f (f ++ ".bak") b].
Proof.
  intros Hb Hf. open_file_by_cases_tac. rewrite Hb, Hf.
  destruct (shutil_move E f (f ++ ".bak") w) as [[u|e] w1];
    cbn [res events]; eauto.
Qed.

(** With a logger bound and a file at the path that cannot be moved, the
    failure is logged, nothing is opened and [False] is returned. *)
Lemma open_file_bound_move_fails f w e :
  log_bound E = true ->
  os_path_isfile E f w = true ->
  fst (shutil_move E f (f ++ ".bak") w) = Raise e ->
  res (open_file E f w) = Ok None
  /\ events (open_file E f w) =
     [EMove f (f ++ ".bak") false;
      ELog WARNING
        (Msg ("Could not back up existing file " ++ f ++ ", exiting."))].
Proof.
  intros Hb Hf Hm. open_file_by_cases_tac. rewrite Hb, Hf.
  destruct (shutil_move E f (f ++ ".bak") w) as [[u|e'] w1];
    cbn [fst] in Hm; [discriminate|].
  split; reflexivity.
Qed.

(** With a logger bound and a file at the path that can be moved, the
    move comes before the open. *)
Lemma open_file_bound_move_ok f w h :
  log_bound E = true ->
  os_path_isfile E f w = true ->
  fst (shutil_move E f (f ++ ".bak") w) = Ok tt ->
  fst (open_w E f (snd (shutil_move E f (f ++ ".bak") w))) = Ok h ->
  res (open_file E f w) = Ok (Some h)
  /\ events (open_file E f w) =
     [EMove f (f ++ ".bak") true;
      ELog INFO (Msg ("Outfile exists moved to " ++ f ++ ".bak"));
      EOpen f (Some h);
      ELog INFO (Msg ("Successfully opened output file " ++ f ++ "."))].
Proof.
  intros Hb Hf Hm Ho. open_file_by_cases_tac. rewrite Hb, Hf.
  destruct (shutil_move E f (f ++ ".bak") w) as [[u|e'] w1];
    cbn [fst snd] in Hm, Ho; [|discriminate].
  destruct (open_w E f w1) as [[h'|e'] w2]; cbn [fst] in Ho;
    [|discriminate].
  injection Ho as ->. split; reflexivity.
Qed.

(** The handle [open_file] returns is the only one it opened. *)
Lemma open_file_handle f w :
  match res (open_file E f w) with
  | Ok (Some h) =>
      forall p h', In (EOpen p (Some h')) (events (open_file E f w)) -> h' = h
  | Ok None => Forall no_handle (events (open_file E f w))
  | Raise _ => True
  end.
Proof.
  open_file_by_cases_tac.
  destruct (os_path_isfile E f w).
  - destruct (shutil_move E f (f ++ ".bak") w) as [[u|e] w1];
      destruct (log_bound E); cbn [res events]; try exact I;
      try (repeat constructor; fail).
    destruct (open_w E f w1) as [[h|e] w2]; cbn [res events].
    + intros p h' [H|[H|[H|[H|[]]]]]; try discriminate. congruence.
    + destruct (is_IOError e); repeat constructor.
  - destruct (open_w E f w) as [[h|e] w2].
    + destruct (log_bound E); cbn [res events]; [|exact I].
      intros p h' [H|[H|[]]]; try discriminate. congruence.
    + destruct (is_IOError e), (log_bound E); cbn [res events];
        try exact I; repeat constructor.
Qed.

End Closing.

(** * The claims of the specification *)

(** ** Taxonomy client *)

(** C4. For a well-formed taxonomy response (a status among the ok codes
    and a JSON object whose field [threat_class] is an array of objects
    with an [id]), [get_classes] returns exactly the [id] of each element,
    in the order of the array, as many as the array has elements. *)
Theorem get_classes_preserves_order
    {W} (E : Env W) (w : W) (r : response) (d : list (string * pyval))
    (elems ids : list pyval) :
  fst (b1td_threat_classes E w) = Ok r ->
  status_ok E r = true ->
  json_loads E (text r) = Ok (PDict d) ->
  assoc "threat_class" d = Some (PList elems) ->
  Forall2 (fun e i => py_getitem e "id" = Ok i) elems ids ->
  res (get_classes E w) = Ok ids /\ length ids = length elems.
Proof.
  intros Hr Hok Hj Hf Hids. split.
  - rewrite (get_classes_ids E w r d elems ids Hr Hok Hj Hf Hids).
    reflexivity.
  - symmetry. eapply Forall2_length. exact Hids.
Qed.

Lemma get_classes_preserves_order_witness :
  res (get_classes Demo.script_env []) = Ok [Demo.malware; Demo.phishing]
  /\ length [Demo.malware; Demo.phishing]
     = length [PDict [("id", Demo.malware)]; PDict [("id", Demo.phishing)]].
Proof.
  apply (get_classes_preserves_order Demo.script_env []
           (mkResponse 200 Demo.classes_body)
           [("threat_class",
             PList [PDict [("id", Demo.malware)];
                    PDict [("id", Demo.phishing)]])]).
  - reflexivity.
  - reflexivity.
  - reflexivity.
  - reflexivity.
  - repeat constructor.
Defined.

(** C2, as the code has it.  An ok response whose body is not JSON makes
    [json.loads] raise, and the exception leaves [get_classes] and
    [get_properties]: no empty sequence is returned.  An ok response whose
    body is a JSON object without the expected field takes the data-format
    branch, which returns the empty sequence once its diagnostic is logged,
    that is when the global name [log] it uses is bound. *)
Theorem client_on_malformed_body {W} (E : Env W) (tclass : pyval) (w : W) :
  (forall r e,
      fst (b1td_threat_classes E w) = Ok r -> status_ok E r = true ->
      json_loads E (text r) = Raise e ->
      res (get_classes E w) = Raise e)
  /\ (forall r e,
      fst (b1td_threat_properties E tclass w) = Ok r -> status_ok E r = true ->
      json_loads E (text r) = Raise e ->
      res (get_properties E tclass w) = Raise e)
  /\ (forall r d,
      log_bound E = true ->
      fst (b1td_threat_classes E w) = Ok r -> status_ok E r = true ->
      json_loads E (text r) = Ok (PDict d) ->
      assoc "threat_class" d = None ->
      res (get_classes E w) = Ok [])
  /\ (forall r d,
      log_bound E = true ->
      fst (b1td_threat_properties E tclass w) = Ok r -> status_ok E r = true ->
      json_loads E (text r) = Ok (PDict d) ->
      assoc "property" d = None ->
      res (get_properties E tclass w) = Ok []).
Proof.
  repeat split.
  - intros r e. apply get_classes_decode_error.
  - intros r e. apply get_properties_decode_error.
  - intros r d Hb Hr Hok Hj Hf.
    rewrite (get_classes_no_field E w r d Hr Hok Hj Hf), Hb. reflexivity.
  - intros r d Hb Hr Hok Hj Hf.
    rewrite (get_properties_no_field E tclass w r d Hr Hok Hj Hf), Hb.
    reflexivity.
Qed.

Lemma client_on_malformed_body_witness :
  res (get_classes (Demo.answering true (mkResponse 200 Demo.broken_body)) [])
    = Raise JSONDecodeError
  /\ res (get_properties Demo.logged_env Demo.botnet []) = Raise JSONDecodeError
  /\ res (get_classes
            (Demo.answering true (mkResponse 200 Demo.no_field_body)) [])
     = Ok []
  /\ res (get_properties Demo.logged_env Demo.adware []) = Ok [].
Proof.
  split; [|split; [|split]].
  - apply (proj1 (client_on_malformed_body
                    (Demo.answering true (mkResponse 200 Demo.broken_body))
                    Demo.botnet [])
             (mkResponse 200 Demo.broken_body) JSONDecodeError);
      reflexivity.
  - apply (proj1 (proj2 (client_on_malformed_body
                           Demo.logged_env Demo.botnet []))
             (mkResponse 200 Demo.broken_body) JSONDecodeError);
      reflexivity.
  - apply (proj1 (proj2 (proj2 (client_on_malformed_body
                    (Demo.answering true (mkResponse 200 Demo.no_field_body))
                    Demo.adware [])))
             (mkResponse 200 Demo.no_field_body)
             [("errors", PList [])]);
      reflexivity.
  - apply (proj2 (proj2 (proj2 (client_on_malformed_body
                                  Demo.logged_env Demo.adware [])))
             (mkResponse 200 Demo.no_field_body)
             [("errors", PList [])]);
      reflexivity.
Defined.

(** C2 as stated fails: the service answers with status 200 and a body
    that is not JSON, and both functions raise the decoder's error instead
    of returning an empty sequence; this does not depend on the logger. *)
Lemma malformed_json_is_raised :
  status_ok Demo.script_env (mkResponse 200 Demo.broken_body) = true
  /\ json_loads Demo.script_env Demo.broken_body = Raise JSONDecodeError
  /\ res (get_classes
            (Demo.answering false (mkResponse 200 Demo.broken_body)) [])
     = Raise JSONDecodeError
  /\ res (get_classes
            (Demo.answering true (mkResponse 200 Demo.broken_body)) [])
     = Raise JSONDecodeError
  /\ res (get_properties Demo.script_env Demo.botnet []) = Raise JSONDecodeError
  /\ res (get_properties Demo.logged_env Demo.botnet []) = Raise JSONDecodeError.
Proof. repeat split. Qed.

(** ** Collector *)

(** C1, as the code has it.  When the collection loop over a class
    sequence of length N runs to its end, the mapping has at most N keys
    and every class of the sequence is one of them; and a turn of the loop
    that completes for a class whose fetch returned a status outside the ok
    codes has stored the class with the empty list. *)
Theorem collect_properties_failed_class_kept
    {W} (E : Env W) (cs : list pyval) (w : W) (m : pydict) :
  res (collect_properties E cs [] w) = Ok m ->
  (length (dict_keys m) <= length cs)%nat
  /\ (forall c, In c cs -> exists ps, dict_getitem c m = Ok ps)
  /\ (forall d tc w1 r d',
         fst (b1td_threat_properties E tc w1) = Ok r ->
         status_ok E r = false ->
         res (collect_step E d tc w1) = Ok d' ->
         dict_getitem tc d' = Ok []).
Proof.
  intros H. rewrite collect_properties_res in H.
  destruct (collect_loop_ok E cs [] w m H) as (Hlen & Hin & _ & _).
  repeat split.
  - unfold dict_keys. rewrite length_map. simpl in Hlen. exact Hlen.
  - intros c Hc. apply dict_mem_getitem, Hin, Hc.
  - intros d tc w1 r d' Hr Hbad Hstep.
    destruct (collect_step_ok E d tc w1 d' Hstep) as (ps & Hps & Hset).
    rewrite (get_properties_bad_status E tc w1 r Hr Hbad) in Hps.
    destruct (log_bound E); [|discriminate].
    injection Hps as <-. eapply dict_mem_setitem_same. exact Hset.
Qed.

Lemma collect_properties_failed_class_kept_witness :
  (length (dict_keys [(Demo.malware, [PStr "trojan"; PStr "worm"]);
                      (Demo.phishing, [])])
   <= length [Demo.malware; Demo.phishing])%nat
  /\ (forall c, In c [Demo.malware; Demo.phishing] ->
        exists ps,
          dict_getitem c [(Demo.malware, [PStr "trojan"; PStr "worm"]);
                          (Demo.phishing, [])] = Ok ps)
  /\ (forall d tc w1 r d',
         fst (b1td_threat_properties Demo.logged_env tc w1) = Ok r ->
         status_ok Demo.logged_env r = false ->
         res (collect_step Demo.logged_env d tc w1) = Ok d' ->
         dict_getitem tc d' = Ok []).
Proof.
  apply (collect_properties_failed_class_kept Demo.logged_env
           [Demo.malware; Demo.phishing] []).
  reflexivity.
Defined.

(** C1 as stated fails: a class whose fetch failed is in the mapping with
    an empty list.  With a logger bound, phishing is answered with status
    404 and is stored with the empty list; with no logger bound either, a
    class whose body has an object where the property array should be is
    stored with the empty list. *)
Lemma failed_class_present_with_empty_list :
  (fst (b1td_threat_properties Demo.logged_env Demo.phishing [])
     = Ok (mkResponse 404 EmptyString)
   /\ status_ok Demo.logged_env (mkResponse 404 EmptyString) = false
   /\ res (collect_properties Demo.logged_env
             [Demo.malware; Demo.phishing] [] [])
      = Ok [(Demo.malware, [PStr "trojan"; PStr "worm"]);
            (Demo.phishing, [])])
  /\ (fst (b1td_threat_properties Demo.script_env Demo.spam [])
        = Ok (mkResponse 200 Demo.object_body)
      /\ json_loads Demo.script_env Demo.object_body
         = Ok (PDict [("property", PDict [])])
      /\ res (collect_properties Demo.script_env [Demo.spam] [] [])
         = Ok [(Demo.spam, [])]).
Proof. repeat split. Qed.

(** C10. When the collection loop runs to its end, the keys of the mapping
    are exactly the classes of the sequence: every class has an entry
    (whatever list its fetch gave, the empty one included) and every key is
    a class of the sequence. *)
Theorem collect_properties_key_set
    {W} (E : Env W) (cs : list pyval) (w : W) (m : pydict) :
  res (collect_properties E cs [] w) = Ok m ->
  (forall c, In c cs -> dict_mem c m = true)
  /\ (forall k, In k (dict_keys m) -> In k cs).
Proof.
  intros H. rewrite collect_properties_res in H.
  destruct (collect_loop_ok E cs [] w m H) as (_ & Hin & _ & Hkeys).
  split; [exact Hin|].
  intros k Hk. destruct (Hkeys k Hk) as [[]|Hk']. exact Hk'.
Qed.

Lemma collect_properties_key_set_witness :
  (forall c, In c [Demo.malware; Demo.spam] ->
     dict_mem c [(Demo.malware, [PStr "trojan"; PStr "worm"]);
                 (Demo.spam, [])] = true)
  /\ (forall k,
        In k (dict_keys [(Demo.malware, [PStr "trojan"; PStr "worm"]);
                         (Demo.spam, [])]) ->
        In k [Demo.malware; Demo.spam]).
Proof.
  apply (collect_properties_key_set Demo.script_env
           [Demo.malware; Demo.spam] []).
  reflexivity.
Defined.

(** ** Renderer *)

(** C3, as the code has it.  In grouped mode, over a mapping that has an
    entry for every class of the sequence, the renderer goes through the
    class sequence in its order, prints for each class its header and then
    one line per property of its entry, and returns; a class whose entry is
    the empty list is headed and has no property line. *)
Theorem output_report_grouped_total
    {W} (E : Env W) (cs : list pyval) (m : pydict) (w : W) :
  dict_truthy m = true ->
  (forall c, In c cs -> dict_mem c m = true) ->
  output_report E cs m w = mkRun (Ok tt) w (map EPrint (grouped_report E cs m))
  /\ (forall c, dict_getitem c m = Ok [] ->
        grouped_block E m c =
        [EmptyString; "Threat Class: " ++ py_str E c;
         " Associated Threat Properties:"]).
Proof.
  intros Ht Hall. split.
  - apply output_report_grouped; assumption.
  - intros c Hc. unfold grouped_block. rewrite Hc. reflexivity.
Qed.

Lemma output_report_grouped_total_witness :
  output_report Demo.script_env [Demo.malware; Demo.phishing]
    [(Demo.malware, [PStr "trojan"]); (Demo.phishing, [])] []
  = mkRun (Ok tt) []
      (map EPrint
         [EmptyString; "Threat Class: malware";
          " Associated Threat Properties:"; "     trojan";
          EmptyString; "Threat Class: phishing";
          " Associated Threat Properties:";
          EmptyString]).
Proof.
  refine (proj1 (output_report_grouped_total Demo.script_env
                   [Demo.malware; Demo.phishing]
                   [(Demo.malware, [PStr "trojan"]); (Demo.phishing, [])] []
                   _ _)).
  - reflexivity.
  - intros c [<-|[<-|[]]]; reflexivity.
Defined.

(** C3 as stated fails: with phishing absent from a mapping that holds
    malware, the renderer prints the header of phishing and raises
    [KeyError]; malware, which follows, is never headed. *)
Lemma absent_class_raises_KeyError :
  dict_mem Demo.phishing [(Demo.malware, [PStr "trojan"])] = false
  /\ output_report Demo.script_env [Demo.phishing; Demo.malware]
       [(Demo.malware, [PStr "trojan"])] []
     = mkRun (Raise (KeyError Demo.phishing)) []
         [EPrint EmptyString; EPrint "Threat Class: phishing";
          EPrint " Associated Threat Properties:"].
Proof. split; reflexivity. Qed.

(** C5. The mode of the renderer is decided by the mapping alone.  With
    an empty mapping it is in flat mode: it prints the single header, one
    line per class in the order of the sequence and a closing empty line,
    none of them a line of grouped mode.  With a mapping that is not empty
    it is in grouped mode, whatever the classes are: every line it prints
    is a line of grouped mode and the flat header is not printed; when
    every class has an entry the run is the grouped report, block after
    block in the order of the sequence; otherwise it is the blocks of the
    classes before the first one whose lookup raises, then the header of
    that class, and the exception; one of the two is always the case.  So
    the run is the flat report exactly when the mapping is empty. *)
Theorem output_report_modes {W} (E : Env W) (cs : list pyval) (w : W) :
  output_report E cs [] w = mkRun (Ok tt) w (map EPrint (flat_report E cs))
  /\ flat_report E cs
     = app ("Threat Classes:" :: map (fun c => "     " ++ py_str E c) cs)
           [EmptyString]
  /\ length (flat_report E cs) = (length cs + 2)%nat
  /\ (forall l, In l (flat_report E cs) ->
        l <> " Associated Threat Properties:"
        /\ forall c, l <> "Threat Class: " ++ c)
  /\ (forall kv m,
        Forall (prints E (grouped_line E))
               (events (output_report E cs (kv :: m) w))
        /\ ~ In (EPrint "Threat Classes:")
                (events (output_report E cs (kv :: m) w)))
  /\ (forall kv m,
        (forall c, In c cs -> dict_mem c (kv :: m) = true) ->
        output_report E cs (kv :: m) w
        = mkRun (Ok tt) w (map EPrint (grouped_report E cs (kv :: m))))
  /\ (forall kv m pre c post ex,
        cs = app pre (c :: post) ->
        (forall x, In x pre -> dict_mem x (kv :: m) = true) ->
        dict_getitem c (kv :: m) = Raise ex ->
        output_report E cs (kv :: m) w
        = mkRun (Raise ex) w
            (map EPrint
               (app (flat_map (grouped_block E (kv :: m)) pre)
                    [EmptyString; "Threat Class: " ++ py_str E c;
                     " Associated Threat Properties:"])))
  /\ (forall m : pydict,
        (forall c, In c cs -> dict_mem c m = true)
        \/ (exists pre c post ex,
              cs = app pre (c :: post)
              /\ (forall x, In x pre -> dict_mem x m = true)
              /\ dict_getitem c m = Raise ex))
  /\ (forall m : pydict,
        output_report E cs m w
        = mkRun (Ok tt) w (map EPrint (flat_report E cs))
        <-> m = []).
Proof.
  assert (Hgrouped : forall kv m,
            Forall (prints E (grouped_line E))
                   (events (output_report E cs (kv :: m) w))
            /\ ~ In (EPrint "Threat Classes:")
                    (events (output_report E cs (kv :: m) w))).
  { intros kv m.
    assert (H : Forall (prints E (grouped_line E))
                       (events (output_report E cs (kv :: m) w)))
      by (apply output_report_grouped_lines; reflexivity).
    split; [exact H|].
    intros Hin. rewrite Forall_forall in H. specialize (H _ Hin). simpl in H.
    exact (grouped_line_not_flat_header E _ H eq_refl). }
  split; [apply output_report_flat|].
  split; [reflexivity|].
  split.
  { unfold flat_report. rewrite length_app. simpl. rewrite length_map. lia. }
  split; [intros l; apply flat_line_not_grouped|].
  split; [exact Hgrouped|].
  split.
  { intros kv m Hall. apply output_report_grouped; [reflexivity | exact Hall]. }
  split.
  { intros kv m pre c post ex -> Hall Hc.
    apply output_report_stops; [reflexivity | exact Hall | exact Hc]. }
  split; [intros m; apply first_failing_class|].
  intros m. split.
  - destruct m as [|kv m]; [reflexivity|]. intros Hrun. exfalso.
    apply (proj2 (Hgrouped kv m)). rewrite Hrun. left. reflexivity.
  - intros ->. apply output_report_flat.
Qed.

(** On the classes malware and phishing: with a mapping that holds both
    the run is the grouped report; with one that holds malware only it
    stops after the header of phishing; with the empty one it is the flat
    report. *)
Lemma output_report_modes_witness :
  output_report Demo.script_env [Demo.malware; Demo.phishing]
    [(Demo.malware, [PStr "trojan"]); (Demo.phishing, [])] []
  = mkRun (Ok tt) []
      (map EPrint
         [EmptyString; "Threat Class: malware";
          " Associated Threat Properties:"; "     trojan";
          EmptyString; "Threat Class: phishing";
          " Associated Threat Properties:";
          EmptyString])
  /\ output_report Demo.script_env [Demo.malware; Demo.phishing]
       [(Demo.malware, [PStr "trojan"])] []
     = mkRun (Raise (KeyError Demo.phishing)) []
         (map EPrint
            [EmptyString; "Threat Class: malware";
             " Associated Threat Properties:"; "     trojan";
             EmptyString; "Threat Class: phishing";
             " Associated Threat Properties:"])
  /\ output_report Demo.script_env [Demo.malware; Demo.phishing] [] []
     = mkRun (Ok tt) []
         (map EPrint
            ["Threat Classes:"; "     malware"; "     phishing";
             EmptyString]).
Proof.
  destruct (output_report_modes Demo.script_env
              [Demo.malware; Demo.phishing] [])
    as (Hflat & _ & _ & _ & _ & Hall & Hstop & _ & _).
  split; [|split].
  - refine (Hall (Demo.malware, [PStr "trojan"]) [(Demo.phishing, [])] _).
    intros c [<-|[<-|[]]]; reflexivity.
  - refine (Hstop (Demo.malware, [PStr "trojan"]) [] [Demo.malware]
              Demo.phishing [] (KeyError Demo.phishing) eq_refl _ eq_refl).
    intros x [<-|[]]. reflexivity.
  - exact Hflat.
Defined.

(** ** Output file and end of the run *)

(** C6, on the script as it is run (the global name [log] unbound).  With
    an output path at which a file exists, [main] asks for the move of the
    file to the path followed by [.bak] and then, whether the move was done
    or not, ends with [NameError]: nothing is opened, nothing is printed,
    the requests to the service are not made. *)
Theorem main_existing_output_aborts
    {W} (E : Env W) (args : Args) (f : string) (w : W) :
  log_bound E = false ->
  output args = Some f ->
  str_truthy f = true ->
  fst (b1td_init E (configfile_of args) w) = Ok tt ->
  os_path_isfile E f (snd (b1td_init E (configfile_of args) w)) = true ->
  res (main E args w) = Raise (NameError "log")
  /\ exists b,
      events (main E args w) =
      [EB1Init (configfile_of args);
       EBasicConfig (if debug args then DEBUG else INFO);
       EMove f (f ++ ".bak") b].
Proof.
  intros Hb Hout Ht Hinit Hf.
  destruct (open_file_unbound_existing E f _ Hb Hf) as (Hres & b & Hev).
  rewrite main_unfold, Hout. unfold open_part. rewrite Ht.
  rewrite bind_emit. cbn [res events].
  rewrite (bind_ok _ _ w tt) by exact Hinit. cbn [res events call].
  assert (Hopen : forall w1 k,
             w1 = snd (b1td_init E (configfile_of args) w) ->
             (outfile <- (outfile <- open_file E f ;;
                          match outfile with
                          | Some _ => ret outfile
                          | None =>
                              log_local WARNING
                                (Msg "Failed to open output file for CSV.") ;;;
                              ret outfile
                          end) ;; k outfile) w1
             = mkRun (Raise (NameError "log"))
                     (world_after (open_file E f w1))
                     [EMove f (f ++ ".bak") b] :> run W Z).
  { intros w1 k ->.
    rewrite (bind_raise _ _ _ (NameError "log"));
      rewrite (bind_raise _ _ _ (NameError "log") Hres); [|reflexivity].
    cbn [world_after events]. rewrite Hev. reflexivity. }
  unfold setup_logging. destruct (debug args);
    rewrite bind_emit, (Hopen _ _ eq_refl); cbn [res events];
    (split; [reflexivity | exists b; reflexivity]).
Qed.

Lemma main_existing_output_aborts_witness :
  res (main Demo.script_env Demo.args_out ["report.csv"])
    = Raise (NameError "log")
  /\ exists b,
      events (main Demo.script_env Demo.args_out ["report.csv"]) =
      [EB1Init "config.ini"; EBasicConfig INFO;
       EMove "report.csv" "report.csv.bak" b].
Proof.
  apply (main_existing_output_aborts Demo.script_env Demo.args_out
           "report.csv" ["report.csv"]); reflexivity.
Defined.

Section ClosingMain.
Context {W : Type} (E : Env W).

(** The handle the output-file part of [main] yields is the only one it
    opened, and that part closes nothing. *)
Lemma open_part_handle o w :
  Forall no_close (events (open_part E o w))
  /\ match res (open_part E o w) with
     | Ok (Some h) =>
         forall p h',
           In (EOpen p (Some h')) (events (open_part E o w)) -> h' = h
     | Ok None => Forall no_handle (events (open_part E o w))
     | Raise _ => True
     end.
Proof.
  split.
  { apply emits_open_part; intros; exact I. }
  unfold open_part. destruct o as [f|]; [|repeat constructor].
  destruct (str_truthy f); [|repeat constructor].
  pose proof (open_file_handle E f w) as H.
  unfold bind, log_local, emit, ret.
  destruct (res (open_file E f w)) as [[h|]|e]; simpl; [| |exact I].
  - intros p h' Hin. rewrite app_nil_r in Hin. exact (H p h' Hin).
  - apply Forall_app. split; [exact H | repeat constructor].
Qed.

Lemma close_safe_bind {A} (m : M W A) (k : A -> M W Z) :
  emits silent m -> (forall a, close_safe (k a)) -> close_safe (bind m k).
Proof.
  intros Hm Hk w.
  assert (Hc : Forall no_close (events (m w)))
    by (eapply Forall_impl; [|apply Hm]; intros e He;
        apply (silent_quiet e He)).
  assert (Hh : Forall no_handle (events (m w)))
    by (eapply Forall_impl; [|apply Hm]; intros e He;
        apply (silent_quiet e He)).
  unfold bind. destruct (res (m w)) as [a|e]; simpl.
  - destruct (Hk a (world_after (m w))) as [Hk1 Hk2]. split.
    + intros c p h Hres Hin. rewrite closes_app, (closes_no_close h _ Hc).
      apply in_app_or in Hin. destruct Hin as [Hin|Hin].
      * exfalso. exact (no_handle_not_in _ p h Hh Hin).
      * exact (Hk1 c p h Hres Hin).
    + intros e h Hres. rewrite closes_app, (closes_no_close h _ Hc).
      exact (Hk2 e h Hres).
  - split; [discriminate|]. intros e' h _. apply closes_no_close, Hc.
Qed.

Lemma close_safe_from_output o p :
  close_safe (outfile <- open_part E o ;; main_tail E p outfile).
Proof.
  intros w. destruct (open_part_handle o w) as [Hc Hh].
  unfold bind. cbv zeta.
  destruct (res (open_part E o w)) as [oh|e]; cbn [res world_after events].
  - destruct (ends_closing_main_tail E p oh (world_after (open_part E o w)))
      as [Hn Hcl].
    split.
    + intros c q h Hres Hin.
      rewrite closes_app, (closes_no_close h _ Hc), Hcl, Hres.
      apply in_app_or in Hin. destruct Hin as [Hin|Hin].
      * destruct oh as [h0|].
        -- rewrite (Hh q h Hin), Nat.eqb_refl. reflexivity.
        -- exfalso. exact (no_handle_not_in _ q h Hh Hin).
      * exfalso. exact (no_handle_not_in _ q h Hn Hin).
    + intros e h Hres.
      rewrite closes_app, (closes_no_close h _ Hc), Hcl, Hres. reflexivity.
  - split; [discriminate|]. intros e' h _. apply closes_no_close, Hc.
Qed.

Lemma close_safe_main args : close_safe (main E args).
Proof.
  intros w. rewrite main_unfold. revert w.
  apply close_safe_bind; [apply emits_emit; exact I | intros _].
  apply close_safe_bind; [apply emits_call | intros _].
  apply close_safe_bind.
  { unfold setup_logging. destruct (debug args); apply emits_emit; exact I. }
  intros _. apply close_safe_from_output.
Qed.

Lemma no_write_main args : emits no_write (main E args).
Proof.
  intros w. rewrite main_unfold. revert w.
  change (emits no_write
            (emit (EB1Init (configfile_of args)) ;;;
             call (b1td_init E (configfile_of args)) ;;;
             setup_logging (debug args) ;;;
             outfile <- open_part E (output args) ;;
             main_tail E (properties args) outfile)).
  unfold setup_logging.
  repeat emits_step; try exact I.
  - apply emits_open_part; intros; exact I.
  - apply emits_main_tail; try (intros; exact I).
    intros [] H; simpl in *; try contradiction; exact I.
Qed.

End ClosingMain.

(** C7, as the code has it.  When [main] returns, each handle its run
    obtained has been closed exactly once, whether or not anything was
    written; when an exception leaves [main] (a transport fault, a decoding
    error), its run has closed nothing. *)
Theorem main_closes_on_return_only {W} (E : Env W) (args : Args) (w : W) :
  (forall c p h,
      res (main E args w) = Ok c ->
      In (EOpen p (Some h)) (events (main E args w)) ->
      closes h (events (main E args w)) = 1%nat)
  /\ (forall e h,
      res (main E args w) = Raise e ->
      closes h (events (main E args w)) = 0%nat).
Proof. apply close_safe_main. Qed.

Lemma main_closes_on_return_only_witness :
  closes 3 (events (main Demo.logged_env Demo.args_out ["report.csv"]))
    = 1%nat
  /\ closes 3 (events (main (Demo.env true true false) Demo.args_out []))
     = 0%nat.
Proof.
  split.
  - apply (proj1 (main_closes_on_return_only Demo.logged_env Demo.args_out
                    ["report.csv"]) 0%Z "report.csv" 3).
    + reflexivity.
    + simpl. tauto.
  - apply (proj2 (main_closes_on_return_only (Demo.env true true false)
                    Demo.args_out [])
             (OtherError "ConnectionError") 3).
    reflexivity.
Defined.

(** C7 as stated fails: the output file is opened and handle 3 obtained,
    the class request meets a transport fault, the fault leaves [main] and
    the handle has not been closed.  In the script as it is run the same
    happens on the [NameError] that follows the open. *)
Lemma fault_leaves_handle_unclosed :
  (res (main (Demo.env true true false) Demo.args_out [])
     = Raise (OtherError "ConnectionError")
   /\ In (EOpen "report.csv" (Some 3))
         (events (main (Demo.env true true false) Demo.args_out []))
   /\ closes 3 (events (main (Demo.env true true false) Demo.args_out []))
      = 0%nat)
  /\ (res (main Demo.script_env Demo.args_out []) = Raise (NameError "log")
      /\ In (EOpen "report.csv" (Some 3))
            (events (main Demo.script_env Demo.args_out []))
      /\ closes 3 (events (main Demo.script_env Demo.args_out [])) = 0%nat).
Proof. repeat split; simpl; tauto. Qed.

(** C8, on the code.  No run of [main] writes anything to any handle; the
    report goes to the console only. *)
Theorem main_writes_nothing
    {W} (E : Env W) (args : Args) (w : W) (h : handle) :
  written h (events (main E args w)) = [].
Proof. apply written_no_write, no_write_main. Qed.

(** The run C8 speaks of, with a logger bound so that the output file is
    opened: the report is on the console, handle 3 is opened and closed,
    and nothing was written to it. *)
Example main_output_file_left_empty :
  let r := main Demo.logged_env Demo.args_out [] in
  res r = Ok 0%Z
  /\ In (EOpen "report.csv" (Some 3)) (events r)
  /\ console (events r)
     = ["Threat Classes:"; "     malware"; "     phishing"; EmptyString]
  /\ written 3 (events r) = [].
Proof. repeat split; simpl; tauto. Qed.

(** C9. Whenever [main] returns, the exit code it returns is 0. *)
Theorem main_exit_code_zero
    {W} (E : Env W) (args : Args) (w : W) (c : Z) :
  res (main E args w) = Ok c -> c = 0%Z.
Proof.
  rewrite main_unfold. intros H.
  repeat (apply bind_res_ok_inv in H; destruct H as (? & _ & H);
          cbv beta in H).
  unfold ret in H. cbn [res] in H. congruence.
Qed.

(** A run in which the only remote call is refused (status 500, with a
    logger bound): the report is empty and the exit code is 0. *)
Lemma main_exit_code_zero_witness :
  res (main (Demo.answering true (mkResponse 500 EmptyString))
            Demo.args_props []) = Ok 0%Z
  /\ console (events (main (Demo.answering true (mkResponse 500 EmptyString))
                           Demo.args_props []))
     = ["Threat Classes:"; EmptyString]
  /\ 0%Z = 0%Z.
Proof.
  split; [reflexivity|]. split; [reflexivity|].
  apply (main_exit_code_zero
           (Demo.answering true (mkResponse 500 EmptyString))
           Demo.args_props [] 0%Z).
  reflexivity.
Defined.

(** ** The global name [log] *)

(** X1. In the script as it is run, the global name [log] is unbound, and
    [open_file] never returns: whatever the path and the file system, the
    call ends with an exception. *)
Theorem open_file_never_returns {W} (E : Env W) (f : string) (w : W) :
  log_bound E = false -> exists e, res (open_file E f w) = Raise e.
Proof.
  intros Hb. rewrite open_file_by_cases. unfold open_file_cases. cbv zeta.
  rewrite Hb.
  destruct (os_path_isfile E f w).
  - destruct (shutil_move E f (f ++ ".bak") w) as [[u|e] w1];
      cbn [res]; eauto.
  - destruct (open_w E f w) as [[h|e] w2]; [cbn [res]; eauto|].
    destruct (is_IOError e); cbn [res]; eauto.
Qed.

Lemma open_file_never_returns_witness :
  exists e, res (open_file Demo.script_env "report.csv" []) = Raise e.
Proof.
  apply (open_file_never_returns Demo.script_env "report.csv" []).
  reflexivity.
Defined.

(** X2. In the script as it is run, a response whose status is not among
    the ok codes makes [get_classes] and [get_properties] end with
    [NameError]: the diagnostic they try to log goes through the unbound
    global name. *)
Theorem client_bad_status_unbound
    {W} (E : Env W) (tclass : pyval) (w : W) (r : response) :
  log_bound E = false ->
  status_ok E r = false ->
  (fst (b1td_threat_classes E w) = Ok r ->
   res (get_classes E w) = Raise (NameError "log"))
  /\ (fst (b1td_threat_properties E tclass w) = Ok r ->
      res (get_properties E tclass w) = Raise (NameError "log")).
Proof.
  intros Hb Hbad. split; intros Hr.
  - rewrite (get_classes_bad_status E w r Hr Hbad), Hb. reflexivity.
  - rewrite (get_properties_bad_status E tclass w r Hr Hbad), Hb.
    reflexivity.
Qed.

Lemma client_bad_status_unbound_witness :
  res (get_classes (Demo.answering false (mkResponse 404 EmptyString)) [])
    = Raise (NameError "log")
  /\ res (get_properties (Demo.answering false (mkResponse 404 EmptyString))
            Demo.phishing [])
     = Raise (NameError "log").
Proof.
  split.
  - apply (proj1 (client_bad_status_unbound
                    (Demo.answering false (mkResponse 404 EmptyString))
                    Demo.phishing [] (mkResponse 404 EmptyString)
                    eq_refl eq_refl)).
    reflexivity.
  - apply (proj2 (client_bad_status_unbound
                    (Demo.answering false (mkResponse 404 EmptyString))
                    Demo.phishing [] (mkResponse 404 EmptyString)
                    eq_refl eq_refl)).
    reflexivity.
Defined.

(** * Further properties of the code *)

(** ** Computations that leave the world alone *)

Section WorldKept.
Context {W : Type}.

Lemma world_kept_bind {A B} (m : M W A) (k : A -> M W B) :
  (forall w, world_after (m w) = w) ->
  (forall a w, world_after (k a w) = w) ->
  forall w, world_after (bind m k w) = w.
Proof.
  intros Hm Hk w. unfold bind. destruct (res (m w)) as [a|e];
    cbn [world_after]; [rewrite Hk|]; apply Hm.
Qed.

Lemma world_kept_for_each {A B} (l : list A) (body : B -> A -> M W B) :
  (forall acc x w, world_after (body acc x w) = w) ->
  forall acc w, world_after (for_each l body acc w) = w.
Proof.
  intros Hb. induction l as [|x l IH]; intros acc w; [reflexivity|].
  cbn [for_each]. apply world_kept_bind; [apply Hb | intros a; apply IH].
Qed.

(** A loop that accumulates, without effect, what is read off each
    element. *)
Lemma for_each_collect {A B} (f : A -> B) (l : list A) :
  forall (acc : list B) (w : W),
    for_each l (fun acc x => ret (acc ++ [f x])%list) acc w
    = mkRun (Ok (acc ++ map f l)%list) w [].
Proof.
  induction l as [|x l IH]; intros acc w; cbn [for_each map].
  - rewrite app_nil_r. reflexivity.
  - rewrite bind_ret, IH, <- app_assoc. reflexivity.
Qed.

End WorldKept.

Lemma console_map_print {A} (f : A -> string) (l : list A) :
  console (map (fun x => EPrint (f x)) l) = map f l.
Proof.
  unfold console. induction l as [|x l IH]; [reflexivity|].
  cbn [map flat_map app]. rewrite IH. reflexivity.
Qed.

Lemma console_prints (l : list string) : console (map EPrint l) = l.
Proof.
  unfold console. induction l as [|x l IH]; [reflexivity|].
  cbn [map flat_map app]. rewrite IH. reflexivity.
Qed.

Lemma console_app a b : console (a ++ b) = (console a ++ console b)%list.
Proof. unfold console. apply flat_map_app. Qed.

Lemma console_no_print evs : Forall no_print evs -> console evs = [].
Proof.
  unfold console. induction 1 as [|e evs He _ IH]; [reflexivity|].
  destruct e; simpl in *; try exact IH; contradiction.
Qed.

(** ** Renderer *)

Section RendererMore.
Context {W : Type} (E : Env W).

Lemma output_report_world cs m w : world_after (output_report E cs m w) = w.
Proof.
  revert w. unfold output_report, print.
  destruct (dict_truthy m).
  - apply world_kept_bind; [|reflexivity].
    intros w. apply world_kept_for_each. intros acc x w0. revert w0.
    repeat (apply world_kept_bind; [reflexivity | intros ?]).
    intros w0. apply world_kept_for_each. reflexivity.
  - apply world_kept_bind; [reflexivity | intros _].
    apply world_kept_bind; [|reflexivity].
    intros w. apply world_kept_for_each. reflexivity.
Qed.

End RendererMore.

(** X3. Rendering touches nothing but the console: for every class
    sequence and mapping, also when it ends with an exception,
    [output_report] leaves the world as it found it and every event of it
    is a printed line. *)
Theorem output_report_only_prints
    {W} (E : Env W) (cs : list pyval) (m : pydict) (w : W) :
  world_after (output_report E cs m w) = w
  /\ Forall (prints E (fun _ => True)) (events (output_report E cs m w)).
Proof.
  split; [apply output_report_world | apply output_report_prints].
Qed.

(** X4. In grouped mode the renderer stops at the first class whose lookup
    in the mapping raises ([KeyError] for a class with no entry,
    [TypeError] for an unhashable one): the classes before it are rendered
    in full, the header of the failing class is printed, the exception
    leaves, and nothing of the classes after it is printed. *)
Theorem output_report_stops_at_failing_class
    {W} (E : Env W) (pre post : list pyval) (c : pyval) (m : pydict)
    (ex : exn) (w : W) :
  dict_truthy m = true ->
  (forall x, In x pre -> dict_mem x m = true) ->
  dict_getitem c m = Raise ex ->
  output_report E (pre ++ c :: post) m w
  = mkRun (Raise ex) w
      (map EPrint
         (app (flat_map (grouped_block E m) pre)
              [EmptyString; "Threat Class: " ++ py_str E c;
               " Associated Threat Properties:"])).
Proof.
  intros Ht Hall Hc. unfold output_report. rewrite Ht.
  rewrite (bind_raise _ _ w ex)
    by (rewrite (grouped_loop_stops E m pre c post ex w Hall Hc);
        reflexivity).
  rewrite (grouped_loop_stops E m pre c post ex w Hall Hc). reflexivity.
Qed.

Lemma output_report_stops_at_failing_class_witness :
  output_report Demo.script_env
    ([Demo.malware] ++ Demo.phishing :: [Demo.spam])
    [(Demo.malware, [PStr "trojan"]); (Demo.spam, [])] []
  = mkRun (Raise (KeyError Demo.phishing)) []
      (map EPrint
         [EmptyString; "Threat Class: malware";
          " Associated Threat Properties:"; "     trojan";
          EmptyString; "Threat Class: phishing";
          " Associated Threat Properties:"]).
Proof.
  apply (output_report_stops_at_failing_class Demo.script_env
           [Demo.malware] [Demo.spam] Demo.phishing
           [(Demo.malware, [PStr "trojan"]); (Demo.spam, [])]
           (KeyError Demo.phishing) []).
  - reflexivity.
  - intros x [<-|[]]. reflexivity.
  - reflexivity.
Defined.

(** ** Counter helpers *)

(** X5. [getkeys] returns the key of every item of the counter, in the
    counter's iteration order, as many keys as there are items; it prints
    nothing and touches nothing. *)
Theorem getkeys_in_order {W} (cc : pycounter) (w : W) :
  getkeys cc w = mkRun (Ok (map fst cc)) w []
  /\ (forall ks, res (getkeys cc w) = Ok ks -> length ks = length cc).
Proof.
  assert (H : getkeys cc w = mkRun (Ok (map fst cc)) w [])
    by (unfold getkeys; rewrite (for_each_collect fst cc []); reflexivity).
  split; [exact H|].
  intros ks Hks. rewrite H in Hks. injection Hks as <-. apply length_map.
Qed.

(** X6. [output_counter] prints one line per item of the counter, in the
    counter's iteration order whatever the counts are (nothing is sorted
    and no item is left out), and always returns. *)
Theorem output_counter_in_order {W} (E : Env W) (cc : pycounter) (w : W) :
  output_counter E cc w
  = mkRun (Ok tt) w
      (map (fun kv => EPrint ("  " ++ py_str E (fst kv) ++ ": "
                                   ++ str_of_Z (snd kv))) cc)
  /\ length (console (events (output_counter E cc w))) = length cc
  /\ (forall ks, res (getkeys cc w) = Ok ks ->
        console (events (output_counter E cc w))
        = map (fun kn => "  " ++ py_str E (fst kn) ++ ": " ++ str_of_Z (snd kn))
              (combine ks (map snd cc))).
Proof.
  assert (H : output_counter E cc w
              = mkRun (Ok tt) w
                  (map (fun kv => EPrint ("  " ++ py_str E (fst kv) ++ ": "
                                               ++ str_of_Z (snd kv))) cc)).
  { unfold output_counter, print.
    apply (for_each_print
             (fun kv : pyval * Z =>
                "  " ++ py_str E (fst kv) ++ ": " ++ str_of_Z (snd kv))). }
  assert (Hc : console (events (output_counter E cc w))
               = map (fun kv => "  " ++ py_str E (fst kv) ++ ": "
                                     ++ str_of_Z (snd kv)) cc).
  { rewrite H. cbn [events]. apply console_map_print. }
  split; [exact H|]. split.
  - rewrite Hc. apply length_map.
  - intros ks Hks. rewrite Hc.
    unfold getkeys in Hks. rewrite (for_each_collect fst cc []) in Hks.
    injection Hks as <-. cbn [app].
    clear. induction cc as [|[k n] cc IH]; [reflexivity|].
    cbn [map combine fst snd]. rewrite IH. reflexivity.
Qed.

(** ** Taxonomy client: bodies of the wrong shape *)

Section ClientMore.
Context {W : Type} (E : Env W).

(** The loop over the array stops at the first element whose [id] cannot
    be read; what was gathered is lost. *)
Lemma for_each_append_fail {A B} (f : A -> outcome B) (pre : list A)
    (ys : list B) (e : A) (post : list A) (ex : exn) :
  Forall2 (fun x y => f x = Ok y) pre ys ->
  f e = Raise ex ->
  forall (acc : list B) (w : W),
    for_each (pre ++ e :: post)
      (fun acc x => y <- lift (f x) ;; ret (acc ++ [y])%list) acc w
    = mkRun (Raise ex) w [].
Proof.
  intros Hpre He. induction Hpre as [|x y pre ys Hxy _ IH]; intros acc w.
  - cbn [app for_each]. rewrite (bind_raise _ _ w ex);
      rewrite He, bind_lift_raise; reflexivity.
  - change ((x :: pre) ++ e :: post)%list with (x :: (pre ++ e :: post))%list.
    cbn [for_each].
    rewrite (bind_ok _ _ w (acc ++ [y])%list);
      rewrite Hxy, bind_lift_ok; [|reflexivity].
    cbn [ret res world_after events]. rewrite IH. reflexivity.
Qed.

Lemma get_classes_after_decode w r v :
  fst (b1td_threat_classes E w) = Ok r ->
  status_ok E r = true ->
  json_loads E (text r) = Ok v ->
  res (get_classes E w) =
  res ((has <- lift (py_in_keys "threat_class" v) ;;
        if has then
          arr <- lift (py_getitem v "threat_class") ;;
          items <- lift (py_iter arr) ;;
          for_each items
            (fun acc tclass =>
               id <- lift (py_getitem tclass "id") ;;
               ret (acc ++ [id])%list)
            []
        else
          log_global E DEBUG
            (Msg ("Data format error. Raw data: " ++ text r)) ;;;
          ret []) (snd (b1td_threat_classes E w))).
Proof.
  intros Hr Hok Hj. unfold status_ok in Hok. unfold get_classes.
  rewrite (bind_ok _ _ w r (classes_call_ok E w r Hr)).
  rewrite Hok, Hj, bind_lift_ok. reflexivity.
Qed.

Lemma get_properties_after_decode tclass w r v :
  fst (b1td_threat_properties E tclass w) = Ok r ->
  status_ok E r = true ->
  json_loads E (text r) = Ok v ->
  res (get_properties E tclass w) =
  res ((has <- lift (py_in_keys "property" v) ;;
        if has then
          arr <- lift (py_getitem v "property") ;;
          items <- lift (py_iter arr) ;;
          for_each items
            (fun acc property =>
               id <- lift (py_getitem property "id") ;;
               ret (acc ++ [id])%list)
            []
        else
          log_global E DEBUG
            (Msg ("Data format error. Raw data: " ++ text r)) ;;;
          ret []) (snd (b1td_threat_properties E tclass w))).
Proof.
  intros Hr Hok Hj. unfold status_ok in Hok. unfold get_properties.
  rewrite (bind_ok _ _ w r (properties_call_ok E tclass w r Hr)).
  rewrite Hok, Hj, bind_lift_ok. reflexivity.
Qed.

Lemma py_getitem_raise v k ex :
  py_getitem v k = Raise ex ->
  (forall d, v = PDict d -> ex = KeyError (PStr k))
  /\ ((forall d, v <> PDict d) -> ex = TypeError).
Proof.
  intros H. split.
  - intros d ->. cbn [py_getitem] in H.
    destruct (assoc k d); [discriminate | congruence].
  - intros Hv. destruct v; cbn [py_getitem] in H; try congruence.
    exfalso. eapply Hv. reflexivity.
Qed.

End ClientMore.

(** X7. An ok response whose body decodes to anything but a JSON object
    (an array, a string, a number, [true], [null]) makes [get_classes] and
    [get_properties] end with [AttributeError]: the value has no [keys]. *)
Theorem client_body_not_an_object
    {W} (E : Env W) (tclass : pyval) (w : W) (r : response) (v : pyval) :
  status_ok E r = true ->
  json_loads E (text r) = Ok v ->
  (forall d, v <> PDict d) ->
  (fst (b1td_threat_classes E w) = Ok r ->
   res (get_classes E w) = Raise AttributeError)
  /\ (fst (b1td_threat_properties E tclass w) = Ok r ->
      res (get_properties E tclass w) = Raise AttributeError).
Proof.
  intros Hok Hj Hv.
  assert (Hk : forall k, py_in_keys k v = Raise AttributeError).
  { intros k. destruct v; try reflexivity. exfalso. eapply Hv. reflexivity. }
  split; intros Hr.
  - rewrite (get_classes_after_decode E w r v Hr Hok Hj), Hk, bind_lift_raise.
    reflexivity.
  - rewrite (get_properties_after_decode E tclass w r v Hr Hok Hj), Hk,
      bind_lift_raise.
    reflexivity.
Qed.

Lemma client_body_not_an_object_witness :
  res (get_classes (Shapes.env false Shapes.array_body) [])
    = Raise AttributeError
  /\ res (get_properties (Shapes.env false Shapes.array_body) Demo.malware [])
     = Raise AttributeError.
Proof.
  assert (H := client_body_not_an_object
                 (Shapes.env false Shapes.array_body) Demo.malware []
                 (mkResponse 200 Shapes.array_body) (PList [])
                 eq_refl eq_refl (fun d Hd => ltac:(discriminate Hd))).
  split; [apply (proj1 H) | apply (proj2 H)]; reflexivity.
Defined.

(** X8. The ids are all or nothing: when an element of the array has its
    [id] unreadable, the exception of the first such element leaves
    [get_classes] and [get_properties] and no partial sequence is
    returned; it is [KeyError] for an object without [id] and [TypeError]
    for an element that is not an object. *)
Theorem client_element_without_id
    {W} (E : Env W) (tclass : pyval) (w : W) (r : response)
    (d : list (string * pyval)) (field : string)
    (pre post ids : list pyval) (e : pyval) (ex : exn) :
  status_ok E r = true ->
  json_loads E (text r) = Ok (PDict d) ->
  assoc field d = Some (PList (pre ++ e :: post)) ->
  Forall2 (fun x i => py_getitem x "id" = Ok i) pre ids ->
  py_getitem e "id" = Raise ex ->
  (field = "threat_class" -> fst (b1td_threat_classes E w) = Ok r ->
   res (get_classes E w) = Raise ex)
  /\ (field = "property" -> fst (b1td_threat_properties E tclass w) = Ok r ->
      res (get_properties E tclass w) = Raise ex)
  /\ (forall d', e = PDict d' -> ex = KeyError (PStr "id"))
  /\ ((forall d', e <> PDict d') -> ex = TypeError).
Proof.
  intros Hok Hj Hf Hpre He.
  split; [|split; [|apply (py_getitem_raise e "id" ex He)]].
  - intros -> Hr.
    rewrite (get_classes_after_decode E w r _ Hr Hok Hj).
    cbn [py_in_keys]. rewrite Hf, bind_lift_ok. cbn [py_getitem].
    rewrite Hf, bind_lift_ok. cbn [py_iter]. rewrite bind_lift_ok.
    rewrite (for_each_append_fail (fun x => py_getitem x "id")
               pre ids e post ex Hpre He).
    reflexivity.
  - intros -> Hr.
    rewrite (get_properties_after_decode E tclass w r _ Hr Hok Hj).
    cbn [py_in_keys]. rewrite Hf, bind_lift_ok. cbn [py_getitem].
    rewrite Hf, bind_lift_ok. cbn [py_iter]. rewrite bind_lift_ok.
    rewrite (for_each_append_fail (fun x => py_getitem x "id")
               pre ids e post ex Hpre He).
    reflexivity.
Qed.

Lemma client_element_without_id_witness :
  res (get_classes (Shapes.env false Shapes.no_id_body) [])
    = Raise (KeyError (PStr "id"))
  /\ res (get_properties (Shapes.env false Shapes.no_id_body) Demo.malware [])
     = Raise TypeError.
Proof.
  split.
  - apply (proj1 (client_element_without_id
                    (Shapes.env false Shapes.no_id_body) Demo.malware []
                    (mkResponse 200 Shapes.no_id_body) Shapes.no_id_value
                    "threat_class"
                    [PDict [("id", Demo.malware)]] [] [Demo.malware]
                    (PDict [("name", Demo.phishing)])
                    (KeyError (PStr "id"))
                    eq_refl eq_refl eq_refl
                    ltac:(repeat constructor) eq_refl));
      reflexivity.
  - apply (proj1 (proj2 (client_element_without_id
                    (Shapes.env false Shapes.no_id_body) Demo.malware []
                    (mkResponse 200 Shapes.no_id_body) Shapes.no_id_value
                    "property"
                    [PDict [("id", PStr "trojan")]] [] [PStr "trojan"]
                    (PInt 7) TypeError
                    eq_refl eq_refl eq_refl
                    ltac:(repeat constructor) eq_refl)));
      reflexivity.
Defined.

(** X9. An ok response whose expected field holds [null], a boolean or a
    number makes [get_classes] and [get_properties] end with [TypeError]:
    the value cannot be iterated. *)
Theorem client_field_not_iterable
    {W} (E : Env W) (tclass : pyval) (w : W) (r : response)
    (d : list (string * pyval)) (field : string) (v : pyval) :
  status_ok E r = true ->
  json_loads E (text r) = Ok (PDict d) ->
  assoc field d = Some v ->
  v = PNone \/ (exists b, v = PBool b) \/ (exists z, v = PInt z) ->
  (field = "threat_class" -> fst (b1td_threat_classes E w) = Ok r ->
   res (get_classes E w) = Raise TypeError)
  /\ (field = "property" -> fst (b1td_threat_properties E tclass w) = Ok r ->
      res (get_properties E tclass w) = Raise TypeError).
Proof.
  intros Hok Hj Hf Hv.
  assert (Hi : py_iter v = Raise TypeError)
    by (destruct Hv as [->|[(b & ->)|(z & ->)]]; reflexivity).
  split; intros -> Hr.
  - rewrite (get_classes_after_decode E w r _ Hr Hok Hj).
    cbn [py_in_keys]. rewrite Hf, bind_lift_ok. cbn [py_getitem].
    rewrite Hf, bind_lift_ok, Hi, bind_lift_raise. reflexivity.
  - rewrite (get_properties_after_decode E tclass w r _ Hr Hok Hj).
    cbn [py_in_keys]. rewrite Hf, bind_lift_ok. cbn [py_getitem].
    rewrite Hf, bind_lift_ok, Hi, bind_lift_raise. reflexivity.
Qed.

Lemma client_field_not_iterable_witness :
  res (get_classes (Shapes.env false Shapes.null_body) []) = Raise TypeError
  /\ res (get_properties (Shapes.env false Shapes.null_body) Demo.malware [])
     = Raise TypeError.
Proof.
  split.
  - apply (proj1 (client_field_not_iterable
                    (Shapes.env false Shapes.null_body) Demo.malware []
                    (mkResponse 200 Shapes.null_body)
                    [("threat_class", PNone); ("property", PNone)]
                    "threat_class" PNone
                    eq_refl eq_refl eq_refl (or_introl eq_refl)));
      reflexivity.
  - apply (proj2 (client_field_not_iterable
                    (Shapes.env false Shapes.null_body) Demo.malware []
                    (mkResponse 200 Shapes.null_body)
                    [("threat_class", PNone); ("property", PNone)]
                    "property" PNone
                    eq_refl eq_refl eq_refl (or_introl eq_refl)));
      reflexivity.
Defined.

(** ** Collector: requests, progress, frame *)

Lemma property_calls_app a b :
  property_calls (a ++ b) = (property_calls a ++ property_calls b)%list.
Proof. unfold property_calls. apply flat_map_app. Qed.

Lemma progress_app a b : progress (a ++ b) = (progress a + progress b)%nat.
Proof. unfold progress. rewrite flat_map_app. apply list_sum_app. Qed.

Lemma property_calls_logs evs : Forall is_log evs -> property_calls evs = [].
Proof.
  unfold property_calls. induction 1 as [|e evs He _ IH]; [reflexivity|].
  destruct e; simpl in *; try contradiction. exact IH.
Qed.

Lemma progress_logs evs : Forall is_log evs -> progress evs = 0%nat.
Proof.
  unfold progress. induction 1 as [|e evs He _ IH]; [reflexivity|].
  destruct e; simpl in *; try contradiction. exact IH.
Qed.

Lemma dict_store_length_ge key k v d :
  (length d <= length (dict_store key k v d))%nat.
Proof.
  induction d as [|[k' v'] d IH]; simpl; [lia|].
  destruct (py_hash k'); [destruct (hkey_eqb h k)|]; simpl; lia.
Qed.

Section CollectorMore.
Context {W : Type} (E : Env W).

(** What follows the first part of a sequence is all that is added to
    its events. *)
Lemma bind_events_split {A B} (P : event -> Prop) (m : M W A)
    (k : A -> M W B) w :
  (forall a, emits P (k a)) ->
  exists rest, events (bind m k w) = (events (m w) ++ rest)%list
               /\ Forall P rest.
Proof.
  intros Hk. unfold bind. destruct (res (m w)) as [a|e]; cbn [events].
  - exists (events (k a (world_after (m w)))). split; [reflexivity|apply Hk].
  - exists []. rewrite app_nil_r. split; [reflexivity|constructor].
Qed.

(** [get_properties] makes its request first, once, and then only logs. *)
Lemma get_properties_events tc w :
  exists rest, events (get_properties E tc w) = ECallProperties tc :: rest
               /\ Forall is_log rest.
Proof.
  unfold get_properties.
  match goal with
  | |- context [bind ?m ?k w] =>
      destruct (bind_events_split is_log m k w) as (rest & Hev & Hrest)
  end.
  - intros r. unfold log_global. repeat emits_step; exact I.
  - exists rest. split; [|exact Hrest]. rewrite Hev. reflexivity.
Qed.

Lemma get_classes_events w :
  exists rest, events (get_classes E w) = ECallClasses :: rest
               /\ Forall is_log rest.
Proof.
  unfold get_classes.
  match goal with
  | |- context [bind ?m ?k w] =>
      destruct (bind_events_split is_log m k w) as (rest & Hev & Hrest)
  end.
  - intros r. unfold log_global. repeat emits_step; exact I.
  - exists rest. split; [|exact Hrest]. rewrite Hev. reflexivity.
Qed.

(** A turn of the loop, by cases. *)
Lemma collect_step_run d tc w :
  collect_step E d tc w =
  match res (get_properties E tc w) with
  | Ok ps =>
      match dict_setitem tc ps d with
      | Ok d1 =>
          mkRun (Ok d1) (world_after (get_properties E tc w))
                (events (get_properties E tc w) ++ [EPbarUpdate 1])%list
      | Raise e =>
          mkRun (Raise e) (world_after (get_properties E tc w))
                (events (get_properties E tc w))
      end
  | Raise e =>
      mkRun (Raise e) (world_after (get_properties E tc w))
            (events (get_properties E tc w))
  end.
Proof.
  unfold collect_step. unfold bind at 1. cbv zeta.
  destruct (res (get_properties E tc w)) as [ps|e]; [|reflexivity].
  destruct (dict_setitem tc ps d) as [d1|e].
  - rewrite bind_lift_ok, bind_emit. reflexivity.
  - rewrite bind_lift_raise. cbn [res world_after events].
    rewrite app_nil_r. reflexivity.
Qed.

(** A turn of the loop: one request, for its class; the bar moves by one
    exactly when the turn completes. *)
Lemma collect_step_events d tc w :
  property_calls (events (collect_step E d tc w)) = [tc]
  /\ progress (events (collect_step E d tc w))
     = match res (collect_step E d tc w) with Ok _ => 1 | Raise _ => 0 end%nat
  /\ Forall inside_bar (events (collect_step E d tc w)).
Proof.
  destruct (get_properties_events tc w) as (rest & Hev & Hrest).
  assert (Hin : Forall inside_bar (events (get_properties E tc w))).
  { rewrite Hev. constructor; [exact I|].
    eapply Forall_impl; [|exact Hrest]. intros [] H; simpl in *; tauto. }
  assert (Hpc : property_calls (events (get_properties E tc w)) = [tc]).
  { rewrite Hev. change (ECallProperties tc :: rest)
      with ([ECallProperties tc] ++ rest)%list.
    rewrite property_calls_app, (property_calls_logs rest Hrest).
    reflexivity. }
  assert (Hpg : progress (events (get_properties E tc w)) = 0%nat).
  { rewrite Hev. change (ECallProperties tc :: rest)
      with ([ECallProperties tc] ++ rest)%list.
    rewrite progress_app, (progress_logs rest Hrest). reflexivity. }
  rewrite collect_step_run.
  destruct (res (get_properties E tc w)) as [ps|e];
    [destruct (dict_setitem tc ps d) as [d1|e]|];
    cbn [res world_after events]; auto.
  rewrite property_calls_app, progress_app, Hpc, Hpg.
  repeat split; try reflexivity.
  apply Forall_app. split; [exact Hin | repeat constructor].
Qed.

Lemma collect_loop_events cs : forall d w,
  (exists rest,
      cs = (property_calls (events (for_each cs (collect_step E) d w))
              ++ rest)%list
      /\ (forall m, res (for_each cs (collect_step E) d w) = Ok m ->
            rest = []))
  /\ (progress (events (for_each cs (collect_step E) d w))
      <= length (property_calls
                   (events (for_each cs (collect_step E) d w))))%nat
  /\ (forall m, res (for_each cs (collect_step E) d w) = Ok m ->
        progress (events (for_each cs (collect_step E) d w)) = length cs)
  /\ Forall inside_bar (events (for_each cs (collect_step E) d w)).
Proof.
  induction cs as [|c cs IH]; intros d w.
  - cbn [for_each ret events res]. repeat split; auto.
    exists []. split; auto.
  - cbn [for_each].
    destruct (collect_step_events d c w) as (Hpc & Hpg & Hin).
    unfold bind. cbv zeta.
    destruct (res (collect_step E d c w)) as [d1|e];
      cbn [res world_after events].
    + destruct (IH d1 (world_after (collect_step E d c w)))
        as ((rest & Hcs & Hrest) & Hle & Hall & Hbar).
      rewrite property_calls_app, progress_app, Hpc, Hpg.
      repeat split.
      * exists rest. split; [|exact Hrest].
        cbn [app]. f_equal. exact Hcs.
      * cbn [app length]. lia.
      * intros m Hm. rewrite (Hall m Hm). reflexivity.
      * apply Forall_app. split; assumption.
    + rewrite Hpc, Hpg. repeat split.
      * exists cs. split; [reflexivity | discriminate].
      * cbn [length]. lia.
      * discriminate.
      * exact Hin.
Qed.

Lemma collect_properties_events cs d w :
  events (collect_properties E cs d w)
  = EPbarOpen (length cs)
      :: (events (for_each cs (collect_step E) d w) ++ [EPbarClose])%list.
Proof. reflexivity. Qed.

End CollectorMore.

(** X10. The property requests are made one class at a time in the order
    of the class sequence: on every path those made are an initial part of
    the sequence, and when the loop completes they are the whole sequence
    (a class that occurs twice is requested twice) and the progress bar
    has been moved once per class.  The progress never exceeds the number
    of requests made. *)
Theorem collect_properties_requests_in_order
    {W} (E : Env W) (cs : list pyval) (d : pydict) (w : W) :
  (exists rest,
      cs = (property_calls (events (collect_properties E cs d w)) ++ rest)%list)
  /\ (forall m, res (collect_properties E cs d w) = Ok m ->
        property_calls (events (collect_properties E cs d w)) = cs
        /\ progress (events (collect_properties E cs d w)) = length cs)
  /\ (progress (events (collect_properties E cs d w))
      <= length (property_calls (events (collect_properties E cs d w))))%nat.
Proof.
  destruct (collect_loop_events E cs d w)
    as ((rest & Hcs & Hrest) & Hle & Hall & _).
  assert (Hpc : property_calls (events (collect_properties E cs d w))
                = property_calls (events (for_each cs (collect_step E) d w))).
  { rewrite collect_properties_events.
    change (EPbarOpen (length cs)
              :: (events (for_each cs (collect_step E) d w) ++ [EPbarClose]))%list
      with ([EPbarOpen (length cs)]
              ++ events (for_each cs (collect_step E) d w) ++ [EPbarClose])%list.
    rewrite !property_calls_app. cbn [property_calls flat_map app].
    apply app_nil_r. }
  assert (Hpg : progress (events (collect_properties E cs d w))
                = progress (events (for_each cs (collect_step E) d w))).
  { rewrite collect_properties_events.
    change (EPbarOpen (length cs)
              :: (events (for_each cs (collect_step E) d w) ++ [EPbarClose]))%list
      with ([EPbarOpen (length cs)]
              ++ events (for_each cs (collect_step E) d w) ++ [EPbarClose])%list.
    rewrite !progress_app.
    change (progress [EPbarOpen (length cs)]) with 0%nat.
    change (progress [EPbarClose]) with 0%nat. lia. }
  rewrite Hpc, Hpg. repeat split.
  - exists rest. exact Hcs.
  - rewrite collect_properties_res in H. rewrite (Hrest m H) in Hcs.
    rewrite app_nil_r in Hcs. symmetry. exact Hcs.
  - rewrite collect_properties_res in H. exact (Hall m H).
  - exact Hle.
Qed.

Lemma collect_properties_requests_in_order_witness :
  property_calls
    (events (collect_properties Demo.script_env
               [Demo.malware; Demo.spam; Demo.malware] [] []))
    = [Demo.malware; Demo.spam; Demo.malware]
  /\ progress
       (events (collect_properties Demo.script_env
                  [Demo.malware; Demo.spam; Demo.malware] [] []))
     = length [Demo.malware; Demo.spam; Demo.malware].
Proof.
  apply (proj1 (proj2 (collect_properties_requests_in_order Demo.script_env
                         [Demo.malware; Demo.spam; Demo.malware] [] []))
           [(Demo.malware, [PStr "trojan"; PStr "worm"]); (Demo.spam, [])]).
  reflexivity.
Defined.

(** X11. The progress bar is opened once, with the number of classes as
    its total, before the first request, and closed once, after everything
    else, on every path: also when a fetch ends the loop with an
    exception. *)
Theorem collect_properties_closes_progress_bar
    {W} (E : Env W) (cs : list pyval) (d : pydict) (w : W) :
  exists mid,
    events (collect_properties E cs d w)
    = EPbarOpen (length cs) :: (mid ++ [EPbarClose])%list
    /\ Forall inside_bar mid.
Proof.
  exists (events (for_each cs (collect_step E) d w)). split.
  - apply collect_properties_events.
  - apply (collect_loop_events E cs d w).
Qed.

(** X12. A turn of the collection loop that completes changes the entry of
    its own class and nothing else: the class now maps to what
    [get_properties] returned for it, every other key maps to what it did
    before (or is as absent as it was), and the mapping has the same
    number of keys or one more. *)
Theorem collect_step_frame
    {W} (E : Env W) (d : pydict) (tc : pyval) (w : W) (d' : pydict) :
  res (collect_step E d tc w) = Ok d' ->
  (exists ps, res (get_properties E tc w) = Ok ps
              /\ dict_getitem tc d' = Ok ps)
  /\ (forall k, key_eqb k tc = false -> dict_getitem k d' = dict_getitem k d)
  /\ (length d <= length d' <= S (length d))%nat.
Proof.
  intros H. destruct (collect_step_ok E d tc w d' H) as (ps & Hps & Hset).
  split; [|split].
  - exists ps. split; [exact Hps|].
    eapply dict_mem_setitem_same. exact Hset.
  - intros k Hk. unfold dict_setitem in Hset.
    destruct (py_hash tc) as [kt|] eqn:Ht; [|discriminate].
    injection Hset as <-. unfold dict_getitem.
    destruct (py_hash k) as [kk|] eqn:Hkk; [|reflexivity].
    rewrite (dict_find_store_other tc kt ps d kk Ht); [reflexivity|].
    intros ->. unfold key_eqb in Hk. rewrite Hkk, Ht, hkey_eqb_refl in Hk.
    discriminate.
  - unfold dict_setitem in Hset.
    destruct (py_hash tc) as [kt|]; [|discriminate].
    injection Hset as <-. split;
      [apply dict_store_length_ge | apply dict_store_length].
Qed.

Lemma collect_step_frame_witness :
  (exists ps, res (get_properties Demo.script_env Demo.spam []) = Ok ps
              /\ dict_getitem Demo.spam
                   [(Demo.malware, [PStr "trojan"]); (Demo.spam, [])] = Ok ps)
  /\ (forall k, key_eqb k Demo.spam = false ->
        dict_getitem k [(Demo.malware, [PStr "trojan"]); (Demo.spam, [])]
        = dict_getitem k [(Demo.malware, [PStr "trojan"])])
  /\ (length [(Demo.malware, [PStr "trojan"])]
      <= length [(Demo.malware, [PStr "trojan"]); (Demo.spam, [])]
      <= S (length [(Demo.malware, [PStr "trojan"])]))%nat.
Proof.
  apply (collect_step_frame Demo.script_env
           [(Demo.malware, [PStr "trojan"])] Demo.spam []).
  reflexivity.
Defined.

(** ** Output file: the order of the file-system calls *)

(** X13. Whether or not the global name [log] is bound: [open_file] asks
    for a move exactly when a file is at the path, as its first action and
    to the path followed by [.bak]; it asks for at most that one move;
    after a move that failed it opens nothing; and the only path it ever
    opens is the one it was given. *)
Theorem open_file_backup_first {W} (E : Env W) (f : string) (w : W) :
  (os_path_isfile E f w = false -> Forall no_move (events (open_file E f w)))
  /\ (os_path_isfile E f w = true ->
      exists b rest,
        events (open_file E f w) = EMove f (f ++ ".bak") b :: rest
        /\ b = (match fst (shutil_move E f (f ++ ".bak") w) with
                | Ok _ => true
                | Raise _ => false
                end)
        /\ Forall no_move rest
        /\ (b = false -> Forall no_open rest))
  /\ (forall p h, In (EOpen p h) (events (open_file E f w)) -> p = f).
Proof.
  rewrite open_file_by_cases. unfold open_file_cases. cbv zeta.
  split; [|split].
  - intros ->. destruct (open_w E f w) as [[h|e] w2];
      [|destruct (is_IOError e)]; destruct (log_bound E);
      cbn [events]; repeat constructor.
  - intros ->.
    destruct (shutil_move E f (f ++ ".bak") w) as [[u|e] w1]; cbn [fst].
    + exists true. destruct (log_bound E).
      * destruct (open_w E f w1) as [[h|e] w2]; cbn [events];
          eexists; (split; [reflexivity|]); (split; [reflexivity|]);
          (split; [|discriminate]);
          [|destruct (is_IOError e)]; repeat constructor.
      * cbn [events]. eexists. split; [reflexivity|].
        split; [reflexivity|]. split; [constructor | discriminate].
    + exists false. destruct (log_bound E); cbn [events]; eexists;
        (split; [reflexivity|]); (split; [reflexivity|]);
        split; repeat constructor.
  - intros p h.
    destruct (os_path_isfile E f w).
    + destruct (shutil_move E f (f ++ ".bak") w) as [[u|e] w1];
        destruct (log_bound E); cbn [events];
        try (intros [H|[H|[]]]; discriminate);
        try (intros [H|[]]; discriminate).
      destruct (open_w E f w1) as [[h'|e] w2];
        [|destruct (is_IOError e)]; cbn [events];
        intros [H|[H|[H|[H|[]]]]]; try discriminate; congruence.
    + destruct (open_w E f w) as [[h'|e] w2];
        [|destruct (is_IOError e)]; destruct (log_bound E); cbn [events];
        try (intros [H|[H|[]]]; try discriminate; congruence);
        try (intros [H|[]]; try discriminate; congruence).
Qed.

Lemma open_file_backup_first_witness :
  Forall no_move (events (open_file Demo.logged_env "report.csv" []))
  /\ exists b rest,
      events (open_file (Demo.env true false true) "report.csv" ["report.csv"])
      = EMove "report.csv" "report.csv.bak" b :: rest
      /\ b = false
      /\ Forall no_move rest
      /\ (b = false -> Forall no_open rest).
Proof.
  split.
  - apply (proj1 (open_file_backup_first Demo.logged_env "report.csv" [])).
    reflexivity.
  - apply (proj1 (proj2 (open_file_backup_first (Demo.env true false true)
                           "report.csv" ["report.csv"]))).
    reflexivity.
Defined.

(** ** The run of [main], end to end *)

Lemma class_calls_app a b :
  class_calls (a ++ b) = (class_calls a + class_calls b)%nat.
Proof. unfold class_calls. rewrite filter_app, length_app. reflexivity. Qed.

Lemma class_calls_none evs :
  Forall no_class_call evs -> class_calls evs = 0%nat.
Proof.
  unfold class_calls. induction 1 as [|e evs He _ IH]; [reflexivity|].
  destruct e; simpl in *; try exact IH. contradiction.
Qed.

Section MainMore.
Context {W : Type} (E : Env W).

Lemma res_bind {A B} (m : M W A) (k : A -> M W B) w :
  res (bind m k w) =
  match res (m w) with
  | Ok a => res (k a (world_after (m w)))
  | Raise e => Raise e
  end.
Proof. unfold bind. destruct (res (m w)); reflexivity. Qed.

Lemma console_bind_quiet {A B} (m : M W A) (k : A -> M W B) w :
  emits no_print m ->
  console (events (bind m k w)) =
  match res (m w) with
  | Ok a => console (events (k a (world_after (m w))))
  | Raise _ => []
  end.
Proof.
  intros Hm. unfold bind. destruct (res (m w)); cbn [events].
  - rewrite console_app, (console_no_print _ (Hm w)). reflexivity.
  - apply console_no_print, Hm.
Qed.

Lemma console_then_quiet {A B} (m : M W A) (k : A -> M W B) w :
  (forall a, emits no_print (k a)) ->
  console (events (bind m k w)) = console (events (m w)).
Proof.
  intros Hk. unfold bind. destruct (res (m w)) as [a|e]; cbn [events];
    [|reflexivity].
  rewrite console_app, (console_no_print _ (Hk a _)). apply app_nil_r.
Qed.

(** Going past a part of the run that prints nothing. *)
Lemma past_quiet {A} (m : M W A) (k : A -> M W Z) (Q : list string -> Prop)
    w c :
  emits no_print m ->
  res (bind m k w) = Ok c ->
  (forall a, res (m w) = Ok a ->
             res (k a (world_after (m w))) = Ok c ->
             Q (console (events (k a (world_after (m w)))))) ->
  Q (console (events (bind m k w))).
Proof.
  intros Hm Hres Hk. rewrite (console_bind_quiet m k w Hm).
  rewrite res_bind in Hres.
  destruct (res (m w)) as [a|e]; [|discriminate].
  apply Hk; [reflexivity | exact Hres].
Qed.

Lemma class_calls_bind_quiet {A B} (m : M W A) (k : A -> M W B) w :
  emits no_class_call m ->
  class_calls (events (bind m k w)) =
  match res (m w) with
  | Ok a => class_calls (events (k a (world_after (m w))))
  | Raise _ => 0%nat
  end.
Proof.
  intros Hm. unfold bind. destruct (res (m w)); cbn [events].
  - rewrite class_calls_app, (class_calls_none _ (Hm w)). reflexivity.
  - apply class_calls_none, Hm.
Qed.

Lemma emits_get_classes P :
  P ECallClasses -> (forall l m, P (ELog l m)) -> emits P (get_classes E).
Proof.
  intros Hc Hl w. destruct (get_classes_events E w) as (rest & -> & Hrest).
  constructor; [exact Hc|].
  eapply Forall_impl; [|exact Hrest].
  intros [] H; simpl in H; try contradiction. apply Hl.
Qed.

Lemma emits_get_properties P tc :
  P (ECallProperties tc) -> (forall l m, P (ELog l m)) ->
  emits P (get_properties E tc).
Proof.
  intros Hc Hl w. destruct (get_properties_events E tc w) as (rest & -> & Hrest).
  constructor; [exact Hc|].
  eapply Forall_impl; [|exact Hrest].
  intros [] H; simpl in H; try contradiction. apply Hl.
Qed.

Lemma emits_collect_properties P cs d :
  (forall tc, P (ECallProperties tc)) ->
  (forall l m, P (ELog l m)) ->
  (forall n, P (EPbarOpen n)) ->
  (forall n, P (EPbarUpdate n)) ->
  P EPbarClose ->
  emits P (collect_properties E cs d).
Proof.
  intros Hc Hl Ho Hu Hx. unfold collect_properties, collect_step.
  repeat emits_step; auto.
  apply emits_get_properties; auto.
Qed.

Lemma emits_output_report P cs m :
  (forall l, P (EPrint l)) -> emits P (output_report E cs m).
Proof.
  intros Hp. eapply emits_weaken; [|apply output_report_prints].
  intros [] H; simpl in H; try contradiction. apply Hp.
Qed.

(** The client, the logger and the output file print nothing. *)
Lemma no_print_open_part o : emits no_print (open_part E o).
Proof. apply emits_open_part; intros; exact I. Qed.

(** What the mapping that reaches the renderer is. *)
Lemma mapping_collected (p : bool) cs w m :
  res (((if p then
           log_local INFO
             (Msg "Retreiving Threat Properies for each Threat Class") ;;;
           collect_properties E cs []
         else ret []) : M W pydict) w) = Ok m ->
  (if p then res (collect_properties E cs [] w) = Ok m else m = [])
  /\ (forall c, In c cs -> dict_truthy m = true -> dict_mem c m = true)
  /\ (dict_truthy m = true <-> p = true /\ cs <> []).
Proof.
  destruct p.
  - unfold log_local. rewrite bind_emit. cbn [res]. intros H.
    assert (Hloop := H). rewrite collect_properties_res in Hloop.
    destruct (collect_loop_ok E cs [] w m Hloop) as (Hlen & Hin & _ & _).
    split; [exact H|]. split; [auto|].
    split.
    + intros Ht. split; [reflexivity|]. intros ->.
      cbn [length] in Hlen. destruct m; [discriminate | cbn in Hlen; lia].
    + intros [_ Hne]. destruct cs as [|c cs]; [congruence|].
      specialize (Hin c (or_introl eq_refl)).
      destruct m; [|reflexivity].
      unfold dict_mem in Hin. destruct (py_hash c); discriminate.
  - cbn [ret res]. intros H. injection H as <-.
    split; [reflexivity|]. split; [discriminate|].
    split; [discriminate | intros [H _]; discriminate].
Qed.

Lemma main_tail_console p o w c :
  res (main_tail E p o w) = Ok c ->
  is_report E p w (console (events (main_tail E p o w))).
Proof.
  unfold main_tail, log_local. intros H.
  apply (past_quiet _ _ _ _ c); [apply emits_emit; exact I | exact H|].
  clear H. intros _ _ H.
  apply (past_quiet _ _ _ _ c);
    [apply emits_get_classes; intros; exact I | exact H|].
  clear H. intros cs Hcs H.
  apply (past_quiet _ _ _ _ c); [apply emits_emit; exact I | exact H|].
  clear H. intros _ _ H.
  apply (past_quiet _ _ _ _ c); [| exact H|].
  { destruct p; [|apply emits_ret].
    apply emits_bind; [apply emits_emit; exact I | intros _].
    apply emits_collect_properties; intros; exact I. }
  clear H. intros m Hm H.
  destruct (mapping_collected p cs _ m Hm) as (Hcoll & Hmem & Htruthy).
  apply (past_quiet _ _ _ _ c); [apply emits_emit; exact I | exact H|].
  clear H. intros _ _ H.
  exists cs, m. split; [exact Hcs|]. split; [exact Hcoll|].
  split; [|exact Htruthy].
  rewrite console_then_quiet
    by (intros; apply emits_closing; intros; exact I).
  destruct (dict_truthy m) eqn:Ht.
  - rewrite output_report_grouped by auto.
    cbn [events]. apply console_prints.
  - destruct m; [|discriminate]. rewrite output_report_flat.
    cbn [events]. apply console_prints.
Qed.

Lemma emits_main_head P args :
  (forall c, P (EB1Init c)) -> (forall l, P (EBasicConfig l)) ->
  emits P (main_head E args).
Proof.
  intros Hi Hc. unfold main_head, setup_logging. repeat emits_step; auto.
Qed.

Lemma main_split args w :
  main E args w =
  (main_head E args ;;;
   outfile <- open_part E (output args) ;;
   main_tail E (properties args) outfile) w.
Proof.
  rewrite main_unfold. unfold main_head, bind.
  cbn [emit res world_after events app].
  destruct (res (call (b1td_init E (configfile_of args)) w)); [|reflexivity].
  cbn [res world_after events app].
  unfold setup_logging. destruct (debug args);
    cbn [emit res world_after events app]; reflexivity.
Qed.

Lemma main_console args w c :
  res (main E args w) = Ok c ->
  is_report E (properties args) (query_world E args w)
    (console (events (main E args w))).
Proof.
  rewrite main_split. intros H.
  apply (past_quiet _ _ _ _ c);
    [apply emits_main_head; intros; exact I | exact H|].
  clear H. intros _ _ H.
  apply (past_quiet _ _ _ _ c); [apply no_print_open_part | exact H|].
  clear H. intros o _ H.
  apply (main_tail_console _ _ _ c H).
Qed.

End MainMore.

(** X14. Whenever [main] returns, what it has put on the console is
    exactly the report over the classes that [get_classes] returned in
    this run, that is, in the world the run had reached when it made the
    class query: the flat report when the properties were not asked for or
    no class came back, and otherwise the grouped report over the mapping
    that the collection loop built in this run, started in the world the
    class query left.  Nothing else is printed. *)
Theorem main_console_is_report
    {W} (E : Env W) (args : Args) (w : W) (c : Z) :
  res (main E args w) = Ok c ->
  is_report E (properties args) (query_world E args w)
    (console (events (main E args w))).
Proof. apply main_console. Qed.

Lemma main_console_is_report_witness :
  is_report Demo.logged_env true
    (query_world Demo.logged_env Demo.args_props [])
    (console (events (main Demo.logged_env Demo.args_props []))).
Proof.
  apply (main_console_is_report Demo.logged_env Demo.args_props [] 0%Z).
  reflexivity.
Defined.

Section MainNever.
Context {W : Type} (E : Env W).

Lemma no_property_call_main_tail o :
  emits no_property_call (main_tail E false o).
Proof.
  unfold main_tail, log_local.
  repeat emits_step; try exact I;
    first [ apply emits_get_classes; intros; exact I
          | apply emits_collect_properties; intros; exact I
          | apply emits_output_report; intros; exact I
          | apply emits_closing; intros; exact I ].
Qed.

Lemma no_file_op_main_tail p : emits no_file_op (main_tail E p None).
Proof.
  unfold main_tail, closing, log_local.
  repeat emits_step; try exact I;
    first [ apply emits_get_classes; intros; exact I
          | apply emits_collect_properties; intros; exact I
          | apply emits_output_report; intros; exact I ].
Qed.

(** The first part of [main] by cases: the client is created, and the
    logger configured after it. *)
Lemma head_run cfg (dbg : bool) (K : M W Z) w :
  (emit (EB1Init cfg) ;;; call (b1td_init E cfg) ;;; setup_logging dbg ;;; K) w
  = match fst (b1td_init E cfg w) with
    | Ok _ =>
        mkRun (res (K (snd (b1td_init E cfg w))))
              (world_after (K (snd (b1td_init E cfg w))))
              (EB1Init cfg
                 :: EBasicConfig (if dbg then DEBUG else INFO)
                 :: events (K (snd (b1td_init E cfg w))))
    | Raise e => mkRun (Raise e) (snd (b1td_init E cfg w)) [EB1Init cfg]
    end.
Proof.
  destruct (fst (b1td_init E cfg w)) as [u|e] eqn:Hi.
  - rewrite bind_emit. rewrite (bind_ok _ _ w u) by exact Hi.
    cbn [call res world_after events app].
    unfold setup_logging. destruct dbg; rewrite bind_emit; reflexivity.
  - rewrite bind_emit. rewrite (bind_raise _ _ w e) by exact Hi.
    reflexivity.
Qed.

(** The class list is requested once by [main_tail], when it gets that
    far. *)
Lemma class_calls_main_tail p o w :
  class_calls (events (main_tail E p o w)) = 1%nat.
Proof.
  unfold main_tail, log_local.
  rewrite class_calls_bind_quiet by (apply emits_emit; exact I).
  cbn [emit res world_after].
  destruct (get_classes_events E w) as (rest & Hev & Hrest).
  unfold bind at 1. cbv zeta.
  assert (Hgc : class_calls (events (get_classes E w)) = 1%nat).
  { rewrite Hev. change (ECallClasses :: rest) with ([ECallClasses] ++ rest)%list.
    rewrite class_calls_app, (class_calls_none rest); [reflexivity|].
    eapply Forall_impl; [|exact Hrest]. intros [] H; simpl in *; tauto. }
  destruct (res (get_classes E w)) as [cs|e]; cbn [events]; [|exact Hgc].
  rewrite class_calls_app, Hgc.
  rewrite class_calls_none; [reflexivity|].
  match goal with
  | |- Forall _ (events (?m ?w0)) =>
      cut (emits no_class_call m); [intros Hc; exact (Hc w0)|]
  end.
  repeat emits_step; try exact I;
    first [ apply emits_get_classes; intros; exact I
          | apply emits_collect_properties; intros; exact I
          | apply emits_output_report; intros; exact I
          | apply emits_closing; intros; exact I ].
Qed.

End MainNever.

(** X15. Without the properties option no property request is ever made:
    no run of [main] with the option off calls [threat_properties], on any
    path. *)
Theorem main_without_properties_requests_none
    {W} (E : Env W) (args : Args) (w : W) :
  properties args = false ->
  property_calls (events (main E args w)) = []
  /\ Forall no_property_call (events (main E args w)).
Proof.
  intros Hp.
  assert (H : Forall no_property_call (events (main E args w))).
  { rewrite main_split, Hp.
    match goal with
    | |- Forall _ (events (?m w)) =>
        cut (emits no_property_call m); [intros Hc; exact (Hc w)|]
    end.
    apply emits_bind; [apply emits_main_head; intros; exact I | intros _].
    apply emits_bind; [apply emits_open_part; intros; exact I | intros o].
    apply no_property_call_main_tail. }
  split; [|exact H].
  unfold property_calls. induction H as [|e evs He _ IH]; [reflexivity|].
  destruct e; simpl in *; try exact IH. contradiction.
Qed.

Lemma main_without_properties_requests_none_witness :
  property_calls (events (main Demo.script_env Demo.args_plain [])) = []
  /\ Forall no_property_call (events (main Demo.script_env Demo.args_plain [])).
Proof.
  apply (main_without_properties_requests_none Demo.script_env
           Demo.args_plain []).
  reflexivity.
Defined.

(** X16. With no output path, or with the empty string as output path,
    [main] does nothing on the file system on any path: no move, no open,
    no write, no close. *)
Theorem main_without_output_touches_no_file
    {W} (E : Env W) (args : Args) (w : W) :
  output args = None \/ output args = Some EmptyString ->
  Forall no_file_op (events (main E args w)).
Proof.
  intros Ho. rewrite main_split.
  assert (Hpart : open_part E (output args) = ret None)
    by (destruct Ho as [-> | ->]; reflexivity).
  rewrite Hpart.
  match goal with
  | |- Forall _ (events (?m w)) =>
      cut (emits no_file_op m); [intros Hc; exact (Hc w)|]
  end.
  apply emits_bind; [apply emits_main_head; intros; exact I | intros _].
  intros w0. rewrite bind_ret. apply no_file_op_main_tail.
Qed.

Lemma main_without_output_touches_no_file_witness :
  Forall no_file_op
    (events (main Demo.logged_env
               (mkArgs "config.ini" true (Some EmptyString) false)
               ["report.csv"])).
Proof.
  apply (main_without_output_touches_no_file Demo.logged_env
           (mkArgs "config.ini" true (Some EmptyString) false)
           ["report.csv"]).
  right. reflexivity.
Defined.

(** X17. The debug option changes the level given to the logging
    configuration and nothing else: two runs of [main] from the same world
    whose arguments differ only in that option end the same way, leave the
    same world and have the same events once that level is forgotten. *)
Theorem main_debug_changes_level_only
    {W} (E : Env W) (a1 a2 : Args) (w : W) :
  config a1 = config a2 ->
  properties a1 = properties a2 ->
  output a1 = output a2 ->
  res (main E a1 w) = res (main E a2 w)
  /\ world_after (main E a1 w) = world_after (main E a2 w)
  /\ forget_level (events (main E a1 w)) = forget_level (events (main E a2 w)).
Proof.
  intros Hc Hp Ho. rewrite !main_unfold, !head_run.
  unfold configfile_of. rewrite Hc, Hp, Ho.
  destruct (fst (b1td_init E
                   (if str_truthy (config a2) then config a2 else "config.ini")
                   w)).
  - cbn [res world_after events forget_level map]. auto.
  - auto.
Qed.

Lemma main_debug_changes_level_only_witness :
  res (main Demo.logged_env (mkArgs "config.ini" true None true) [])
  = res (main Demo.logged_env (mkArgs "config.ini" true None false) [])
  /\ world_after (main Demo.logged_env (mkArgs "config.ini" true None true) [])
     = world_after
         (main Demo.logged_env (mkArgs "config.ini" true None false) [])
  /\ forget_level
       (events (main Demo.logged_env (mkArgs "config.ini" true None true) []))
     = forget_level
         (events (main Demo.logged_env (mkArgs "config.ini" true None false)
                       [])).
Proof.
  apply (main_debug_changes_level_only Demo.logged_env
           (mkArgs "config.ini" true None true)
           (mkArgs "config.ini" true None false) []);
    reflexivity.
Defined.

(** X18. [main] asks the service for the class list at most once on any
    path, and exactly once whenever it returns. *)
Theorem main_requests_classes_once
    {W} (E : Env W) (args : Args) (w : W) :
  (class_calls (events (main E args w)) <= 1)%nat
  /\ (forall c, res (main E args w) = Ok c ->
        class_calls (events (main E args w)) = 1%nat).
Proof.
  rewrite main_split.
  rewrite class_calls_bind_quiet
    by (apply emits_main_head; intros; exact I).
  rewrite res_bind.
  destruct (res (main_head E args w)) as [u|e];
    [|split; [lia | discriminate]].
  rewrite class_calls_bind_quiet
    by (apply emits_open_part; intros; exact I).
  rewrite res_bind.
  destruct (res (open_part E (output args) (world_after (main_head E args w))))
    as [o|e]; [|split; [lia | discriminate]].
  rewrite class_calls_main_tail. split; [lia | reflexivity].
Qed.

Lemma main_requests_classes_once_witness :
  class_calls (events (main Demo.logged_env Demo.args_props [])) = 1%nat.
Proof.
  apply (proj2 (main_requests_classes_once Demo.logged_env Demo.args_props [])
           0%Z).
  reflexivity.
Defined.

Section MainOrder.
Context {W : Type} (E : Env W).

Lemma rendering_after_quiet {A B} (m : M W A) (k : A -> M W B) w :
  emits no_print m ->
  (forall a w', retrieval_then_rendering (events (k a w'))) ->
  retrieval_then_rendering (events (bind m k w)).
Proof.
  intros Hm Hk. unfold bind. destruct (res (m w)) as [a|e]; cbn [events].
  - destruct (Hk a (world_after (m w))) as (b & r & -> & Hb & Hr).
    exists (events (m w) ++ b)%list, r. split; [apply app_assoc|].
    split; [apply Forall_app; split; [apply Hm | exact Hb] | exact Hr].
  - exists (events (m w)), []. rewrite app_nil_r.
    split; [reflexivity|]. split; [apply Hm | constructor].
Qed.

Lemma rendering_only {A} (m : M W A) w :
  emits no_remote m -> retrieval_then_rendering (events (m w)).
Proof.
  intros Hm. exists [], (events (m w)).
  split; [reflexivity|]. split; [constructor | apply Hm].
Qed.

Lemma main_tail_order p o w :
  retrieval_then_rendering (events (main_tail E p o w)).
Proof.
  unfold main_tail, log_local.
  apply rendering_after_quiet; [apply emits_emit; exact I | intros _ w1].
  apply rendering_after_quiet;
    [apply emits_get_classes; intros; exact I | intros cs w2].
  apply rendering_after_quiet; [apply emits_emit; exact I | intros _ w3].
  apply rendering_after_quiet.
  { destruct p; [|apply emits_ret].
    apply emits_bind; [apply emits_emit; exact I | intros _].
    apply emits_collect_properties; intros; exact I. }
  intros m w4.
  apply rendering_after_quiet; [apply emits_emit; exact I | intros _ w5].
  apply rendering_only.
  apply emits_bind;
    [apply emits_output_report; intros; exact I | intros _].
  apply emits_closing; intros; exact I.
Qed.

End MainOrder.

(** X19. Rendering starts only when retrieval is over: in every run of
    [main], on every path, the events fall in two parts, a first one in
    which nothing is printed and a second one in which no request is made
    to the service.  So a fault during retrieval leaves the console
    empty. *)
Theorem main_renders_after_retrieval
    {W} (E : Env W) (args : Args) (w : W) :
  retrieval_then_rendering (events (main E args w)).
Proof.
  rewrite main_split.
  apply rendering_after_quiet;
    [apply emits_main_head; intros; exact I | intros _ w1].
  apply rendering_after_quiet;
    [apply emits_open_part; intros; exact I | intros o w2].
  apply main_tail_order.
Qed.
